(** * A Whitted-style ray tracer: shallow embedding of [index.html]

    The script in [index.html] is embedded function by function.  JavaScript
    numbers are idealised as real numbers (the specification's data model
    speaks of "real components"), so [NaN], rounding and the results of
    dividing by zero are outside the model; [Infinity] appears only as the
    initial [closestT] and is kept as a separate constructor.  Exceptions are explicit: a function that can
    throw returns a [result].  The [gl-matrix] helpers ([vec3.add],
    [vec3.normalize], ...) are an external library and are embedded from
    their published definitions. *)

From Stdlib Require Import Reals Lra Lia List String Bool Arith.
From Stdlib Require Import Permutation.
Import ListNotations.
Open Scope R_scope.

(** ** Numbers and comparisons *)

Definition Rltb (x y : R) : bool := if Rlt_dec x y then true else false.
Definition Rleb (x y : R) : bool := if Rle_dec x y then true else false.
Definition Reqb (x y : R) : bool := if Req_dec_T x y then true else false.

Infix "<?" := Rltb (at level 70, no associativity) : R_scope.
Infix "<=?" := Rleb (at level 70, no associativity) : R_scope.
Infix "=?" := Reqb (at level 70, no associativity) : R_scope.

(** [closestT] starts at [Infinity]; every other number of the program is
    finite. *)
Inductive number : Type :=
| Finite (r : R)
| Infinity.

(** [t < closestT] for a finite [t]. *)
Definition lt_number (t : R) (c : number) : bool :=
  match c with
  | Finite r => t <? r
  | Infinity => true
  end.

(** [Math.pow] on the reals: an integral exponent is a repeated product
    (or its inverse), otherwise the power of a positive base is
    [exp (y * ln x)].  The remaining cases are [0] to a positive power,
    which is [0], and cases where JavaScript answers [NaN] or [Infinity],
    which the reals do not have. *)
Definition Math_pow (x y : R) : R :=
  if Req_dec_T y (IZR (Int_part y)) then powerRZ x (Int_part y)
  else if Rlt_dec 0 x then Rpower x y
  else 0.

(** ** Exceptions *)

Inductive exn : Type :=
| TypeError (msg : string)
| Error (msg : string).

Inductive result (A : Type) : Type :=
| Ok (a : A)
| Throw (e : exn).
Arguments Ok {A} a.
Arguments Throw {A} e.

(** [TypeError: Assignment to constant variable.], raised when a [const]
    binding is assigned. *)
Definition const_assignment : exn :=
  TypeError "Assignment to constant variable.".

(** ** HELPER.JS: vectors *)

Record Vec3 : Type := mkVec3 { vx : R; vy : R; vz : R }.

Definition add (a b : Vec3) : Vec3 :=
  mkVec3 (vx a + vx b) (vy a + vy b) (vz a + vz b).

Definition subtract (a b : Vec3) : Vec3 :=
  mkVec3 (vx a - vx b) (vy a - vy b) (vz a - vz b).

Definition scale (v : Vec3) (s : R) : Vec3 :=
  mkVec3 (vx v * s) (vy v * s) (vz v * s).

Definition dot (a b : Vec3) : R :=
  vx a * vx b + vy a * vy b + vz a * vz b.

(** [vec3.normalize]: the squared length is inverted only when positive, so
    the zero vector is mapped to itself. *)
Definition normalize (v : Vec3) : Vec3 :=
  let len := vx v * vx v + vy v * vy v + vz v * vz v in
  let len := if 0 <? len then 1 / sqrt len else len in
  mkVec3 (vx v * len) (vy v * len) (vz v * len).

Definition length (v : Vec3) : R :=
  sqrt (vx v * vx v + vy v * vy v + vz v * vz v).

(** [reflect] is declared in the lighting part of the script and hoisted. *)
Definition reflect (incident normal : Vec3) : Vec3 :=
  let dotProduct := dot incident normal in
  subtract incident (scale normal (2 * dotProduct)).

(** [refract], lines 96-119.  [cosi] is declared with [const]; the branch
    for [cosi < 0] starts with the assignment [cosi = -cosi], which throws
    before the indices are swapped or the normal is flipped. *)
Definition refract (incident normal : Vec3) (ior : R) : result Vec3 :=
  let cosi := - Rmin (Rmax (dot incident normal) (-1)) 1 in
  let etai := 1 in
  let etat := ior in
  let n := normal in
  if cosi <? 0 then Throw const_assignment
  else
    let eta := etai / etat in
    let k := 1 - eta * eta * (1 - cosi * cosi) in
    if k <? 0 then Ok (reflect incident normal)
    else Ok (add (scale incident eta) (scale n (eta * cosi - sqrt k))).

(** The refraction rule as the specification words it (section 4.1): an
    exiting ray has [cosi] negated, the indices swapped and the normal
    flipped, and a vector is returned in every case.  [refract_spec_k] is
    the discriminant [k] of that rule. *)
Definition refract_spec_k (incident normal : Vec3) (ior : R) : R :=
  let cosi := - Rmin (Rmax (dot incident normal) (-1)) 1 in
  let exiting := cosi <? 0 in
  let etai := if exiting then ior else 1 in
  let etat := if exiting then 1 else ior in
  let cosi := if exiting then - cosi else cosi in
  let eta := etai / etat in
  1 - eta * eta * (1 - cosi * cosi).

Definition refract_spec (incident normal : Vec3) (ior : R) : Vec3 :=
  let cosi := - Rmin (Rmax (dot incident normal) (-1)) 1 in
  let exiting := cosi <? 0 in
  let etai := if exiting then ior else 1 in
  let etat := if exiting then 1 else ior in
  let n := if exiting then scale normal (-1) else normal in
  let cosi := if exiting then - cosi else cosi in
  let eta := etai / etat in
  let k := refract_spec_k incident normal ior in
  if k <? 0 then reflect incident normal
  else add (scale incident eta) (scale n (eta * cosi - sqrt k)).

(** ** Constructor arguments

    A constructor may be called with an argument left out ([undefined]);
    such an argument is an [option].  [!x] holds of a missing argument and,
    for a number, of [0]. *)

Definition missing {A : Type} (x : option A) : bool :=
  match x with
  | Some _ => false
  | None => true
  end.

Definition falsy_number (x : option R) : bool :=
  match x with
  | Some v => v =? 0
  | None => true
  end.

(** [x || d] for a number and for an object. *)
Definition number_or (x : option R) (d : R) : R :=
  match x with
  | Some v => if v =? 0 then d else v
  | None => d
  end.

Definition object_or {A : Type} (x : option A) (d : A) : A :=
  match x with
  | Some v => v
  | None => d
  end.

Definition bool_or (x : option bool) (d : bool) : bool :=
  match x with
  | Some true => true
  | _ => d
  end.

(** ** Rays, colours, materials and lights *)

Record Ray : Type := mkRay { origin : Vec3; direction : Vec3 }.

Module Color.
Record t : Type := rgb { r : R; g : R; b : R }.
End Color.

Module Material.
Record t : Type := mk {
  ambient : Color.t;
  diffuse : Color.t;
  specular : Color.t;
  shininess : R;
  reflectivity : R;
  transparency : R;
  ior : R;
  isRefractive : bool
}.

(** The [options] argument, every property of which may be absent. *)
Record options : Type := mkOptions {
  opt_reflectivity : option R;
  opt_transparency : option R;
  opt_ior : option R;
  opt_isRefractive : option bool
}.

(** [options = {}] *)
Definition no_options : options := mkOptions None None None None.

Definition constructor (ambient diffuse specular : option Color.t)
    (shininess : option R) (options : options) : result t :=
  match ambient, diffuse, specular with
  | Some a, Some d, Some s =>
      Ok (mk a d s (number_or shininess 32)
            (number_or (opt_reflectivity options) 0)
            (number_or (opt_transparency options) 0)
            (number_or (opt_ior options) 1)
            (bool_or (opt_isRefractive options) false))
  | _, _, _ =>
      Throw (Error "Material requires ambient, diffuse, and specular properties")
  end.
End Material.

Module Light.
Record t : Type := mk {
  position : Vec3;
  ambient : Color.t;
  diffuse : Color.t;
  specular : Color.t
}.

Definition constructor (position : option Vec3)
    (ambient diffuse specular : option Color.t) : result t :=
  match position with
  | None => Throw (Error "Light requires position")
  | Some p =>
      Ok (mk p (object_or ambient (Color.rgb 0.2 0.2 0.2))
               (object_or diffuse (Color.rgb 0.8 0.8 0.8))
               (object_or specular (Color.rgb 1 1 1)))
  end.
End Light.

(** ** Primitives

    Every object carries the identity [id] that [===] compares. *)

Module Sphere.
Record t : Type := mk {
  id : nat;
  center : Vec3;
  radius : R;
  material : Material.t
}.

(** [if (!center || !radius) throw ...]: the radius is only required to
    be present and different from [0]. *)
Definition constructor (id : nat) (center : option Vec3)
    (radius : option R) (material : Material.t) : result t :=
  if missing center || falsy_number radius
  then Throw (Error "Sphere requires center and radius")
  else match center, radius with
       | Some c, Some r => Ok (mk id c r material)
       | _, _ => Throw (Error "Sphere requires center and radius")
       end.

Definition getNormal (s : t) (intersectionPoint : option Vec3)
    : result Vec3 :=
  match intersectionPoint with
  | None => Throw (Error "Intersection point is required")
  | Some p => Ok (normalize (subtract p (center s)))
  end.

Definition getIntersectionPoint (s : t) (ray : Ray) (t : R) : Vec3 :=
  add (origin ray) (scale (direction ray) t).
End Sphere.

Module Plane.
Record t : Type := mk {
  id : nat;
  point : Vec3;
  normal : Vec3;
  material : Material.t
}.

Definition constructor (id : nat) (point normal : option Vec3)
    (material : Material.t) : result t :=
  match point, normal with
  | Some p, Some n => Ok (mk id p (normalize n) material)
  | _, _ => Throw (Error "Plane requires point and normal")
  end.

Definition getNormal (p : t) : Vec3 := normal p.

Definition getIntersectionPoint (p : t) (ray : Ray) (t : R) : Vec3 :=
  add (origin ray) (scale (direction ray) t).
End Plane.

(** The scene holds spheres and planes, as the specification's data model
    has it; [instanceof] is the case distinction on this type. *)
Inductive Primitive : Type :=
| ASphere (s : Sphere.t)
| APlane (p : Plane.t).

(** [object.material] and the identity of an object of either class. *)
Module Object.
Definition material (object : Primitive) : Material.t :=
  match object with
  | ASphere s => Sphere.material s
  | APlane p => Plane.material p
  end.

Definition identity (object : Primitive) : nat :=
  match object with
  | ASphere s => Sphere.id s
  | APlane p => Plane.id p
  end.
End Object.

(** [object === currentObject]; [currentObject] may be [null]. *)
Definition same_object (object : Primitive) (currentObject : option Primitive)
    : bool :=
  match currentObject with
  | Some c => Nat.eqb (Object.identity object) (Object.identity c)
  | None => false
  end.

Definition getIntersectionPoint (object : Primitive) (ray : Ray) (t : R)
    : Vec3 :=
  match object with
  | ASphere s => Sphere.getIntersectionPoint s ray t
  | APlane p => Plane.getIntersectionPoint p ray t
  end.

(** ** Intersections *)

Definition intersectRaySphere (ray : Ray) (sphere : Sphere.t) : R :=
  let oc := subtract (origin ray) (Sphere.center sphere) in
  let a := dot (direction ray) (direction ray) in
  let b := 2 * dot oc (direction ray) in
  let c := dot oc oc - Sphere.radius sphere * Sphere.radius sphere in
  let discriminant := b * b - 4 * a * c in
  if discriminant <? 0 then -1
  else (- b - sqrt discriminant) / (2 * a).

Definition intersectRayPlane (ray : Ray) (plane : Plane.t) : R :=
  let denom := dot (direction ray) (Plane.normal plane) in
  if Rabs denom <? 0.0001 then -1
  else
    let v := subtract (Plane.point plane) (origin ray) in
    let t := dot v (Plane.normal plane) / denom in
    if 0 <? t then t else -1.

(** The dispatch [if (object instanceof Sphere) ... else if (object
    instanceof Plane) ...] shared by the resolver and the shadow test. *)
Definition intersect (ray : Ray) (object : Primitive) : R :=
  match object with
  | ASphere s => intersectRaySphere ray s
  | APlane p => intersectRayPlane ray p
  end.

(** The object literal [{ t, object, point }] returned by the resolver. *)
Module Intersection.
Record value : Type := mk {
  t : number;
  object : option Primitive;
  point : option Vec3
}.
End Intersection.

(** The value returned when nothing was accepted. *)
Definition noIntersection : Intersection.value :=
  Intersection.mk Infinity None None.

(** One iteration of the loop of [findClosestIntersection]. *)
Definition closer (ray : Ray) (best : Intersection.value)
    (object : Primitive) : Intersection.value :=
  let t' := intersect ray object in
  if (0.001 <? t') && lt_number t' (Intersection.t best)
  then Intersection.mk (Finite t') (Some object)
         (Some (getIntersectionPoint object ray t'))
  else best.

Definition findClosestIntersection (ray : Ray) (objects : list Primitive)
    : Intersection.value :=
  fold_left (closer ray) objects noIntersection.


Definition getNormal (object : Primitive) (intersectionPoint : option Vec3)
    : result Vec3 :=
  match object with
  | ASphere s => Sphere.getNormal s intersectionPoint
  | APlane p => Ok (Plane.getNormal p)
  end.

(** ** LIGHTING.JS: the Phong terms *)

Definition calculateAmbient (material : Material.t) (light : Light.t)
    : Color.t :=
  Color.rgb
    (Color.r (Material.ambient material) * Color.r (Light.ambient light))
    (Color.g (Material.ambient material) * Color.g (Light.ambient light))
    (Color.b (Material.ambient material) * Color.b (Light.ambient light)).

Definition calculateDiffuse (material : Material.t) (light : Light.t)
    (normal lightDir : Vec3) : Color.t :=
  let dotProduct := Rmax (dot normal lightDir) 0 in
  Color.rgb
    (Color.r (Material.diffuse material) * Color.r (Light.diffuse light)
       * dotProduct)
    (Color.g (Material.diffuse material) * Color.g (Light.diffuse light)
       * dotProduct)
    (Color.b (Material.diffuse material) * Color.b (Light.diffuse light)
       * dotProduct).

Definition calculateSpecular (material : Material.t) (light : Light.t)
    (normal lightDir viewDir : Vec3) : Color.t :=
  let reflectDir := reflect (scale lightDir (-1)) normal in
  let spec :=
    Math_pow (Rmax (dot viewDir reflectDir) 0) (Material.shininess material) in
  Color.rgb
    (Color.r (Material.specular material) * Color.r (Light.specular light)
       * spec)
    (Color.g (Material.specular material) * Color.g (Light.specular light)
       * spec)
    (Color.b (Material.specular material) * Color.b (Light.specular light)
       * spec).

(** ** The shadow test *)

(** The loop of [isInShadow], lines 349-390: [continue] moves on to the
    rest of the list, [return] leaves the function. *)
Fixpoint shadowScan (shadowRay : Ray) (distanceToLight : R)
    (currentObject : option Primitive) (objects : list Primitive) : bool :=
  match objects with
  | [] => false
  | object :: rest =>
      if same_object object currentObject
      then shadowScan shadowRay distanceToLight currentObject rest
      else if 0 <? Material.transparency (Object.material object) then
        let t := intersect shadowRay object in
        if (0.001 <? t) && (t <? distanceToLight) then
          if 0.9 <=? Material.transparency (Object.material object)
          then shadowScan shadowRay distanceToLight currentObject rest
          else Material.transparency (Object.material object) <? 0.5
        else shadowScan shadowRay distanceToLight currentObject rest
      else
        let t := intersect shadowRay object in
        if (0.001 <? t) && (t <? distanceToLight) then true
        else shadowScan shadowRay distanceToLight currentObject rest
  end.

Definition isInShadow (point lightPos : Vec3) (objects : list Primitive)
    (currentObject : option Primitive) : bool :=
  let lightDir := normalize (subtract lightPos point) in
  let shadowRayOrigin := add point (scale lightDir 0.001) in
  let shadowRay := mkRay shadowRayOrigin lightDir in
  let distanceToLight := length (subtract lightPos point) in
  shadowScan shadowRay distanceToLight currentObject objects.

(** The shadow rule for a partially transparent occluder as the
    specification words it (section 4.4): an occluder with transparency in
    [0.5, 0.9) that is hit in range decides nothing and the scan goes on. *)
Fixpoint shadowScan_spec (shadowRay : Ray) (distanceToLight : R)
    (currentObject : option Primitive) (objects : list Primitive) : bool :=
  match objects with
  | [] => false
  | object :: rest =>
      if same_object object currentObject
      then shadowScan_spec shadowRay distanceToLight currentObject rest
      else
        let t := intersect shadowRay object in
        if (0.001 <? t) && (t <? distanceToLight) then
          if Material.transparency (Object.material object) <? 0.5 then true
          else shadowScan_spec shadowRay distanceToLight currentObject rest
        else shadowScan_spec shadowRay distanceToLight currentObject rest
  end.

Definition isInShadow_spec (point lightPos : Vec3)
    (objects : list Primitive) (currentObject : option Primitive) : bool :=
  let lightDir := normalize (subtract lightPos point) in
  let shadowRayOrigin := add point (scale lightDir 0.001) in
  let shadowRay := mkRay shadowRayOrigin lightDir in
  let distanceToLight := length (subtract lightPos point) in
  shadowScan_spec shadowRay distanceToLight currentObject objects.

(** ** Instrumented runs

    [calculatePhongLighting] is recursive, can throw, and two claims speak
    of what it calls.  A run therefore carries the list of events it went
    through and ends in a value, in an exception, or (for the fuelled
    definition below) without an answer. *)

Inductive event : Type :=
| Call (depth : nat) (material : Material.t)
| Refract (material : Material.t).

Record run (A : Type) : Type := mkRun {
  log : list event;
  outcome : option (result A)
}.
Arguments mkRun {A} log outcome.
Arguments log {A} r.
Arguments outcome {A} r.

Definition ret {A : Type} (a : A) : run A := mkRun [] (Some (Ok a)).
Definition lift {A : Type} (r : result A) : run A := mkRun [] (Some r).
Definition tell (e : event) : run unit := mkRun [e] (Some (Ok tt)).
Definition exhausted {A : Type} : run A := mkRun [] None.

Definition bind {A B : Type} (m : run A) (f : A -> run B) : run B :=
  match outcome m with
  | Some (Ok a) => mkRun (log m ++ log (f a)) (outcome (f a))
  | Some (Throw e) => mkRun (log m) (Some (Throw e))
  | None => mkRun (log m) None
  end.

Notation "x <- m ;; k" := (bind m (fun x => k))
  (at level 61, m at next level, right associativity).
Notation "m ;;; k" := (bind m (fun _ => k))
  (at level 61, right associativity).

(** ** The recursive shading engine *)

Definition MAX_DEPTH : nat := 5.

(** [lights[0]]; reading a property of [undefined] throws. *)
Definition firstLight (lights : list Light.t) : result Light.t :=
  match lights with
  | light :: _ => Ok light
  | [] => Throw (TypeError "Cannot read properties of undefined")
  end.

(** Passing [null] where [gl-matrix] expects a vector throws. *)
Definition vector (v : option Vec3) : result Vec3 :=
  match v with
  | Some p => Ok p
  | None => Throw (TypeError "Cannot read properties of null")
  end.

(** Lines 418-419 and 463. *)
Definition fresnelReflectivity (material : Material.t)
    (viewDir normal : Vec3) : R :=
  Material.reflectivity material
  + (1 - Material.reflectivity material)
    * Math_pow (1 - Rabs (dot viewDir normal)) 5.

Definition refractFactor (material : Material.t) (viewDir normal : Vec3)
    : R :=
  1 - fresnelReflectivity material viewDir normal.

Definition backgroundColor : Color.t :=
  Color.rgb (50 / 255) (50 / 255) (50 / 255).

(** The block the script repeats at lines 425-453, 467-495 and 552-580: a
    secondary ray leaves [point] along [dir]; on a hit the engine is called
    on the hit object, here through [shade], and the colour it returns is
    handed back. *)
Definition secondaryRay
    (shade : Material.t -> Vec3 -> Vec3 -> Vec3 -> option Primitive
             -> run Color.t)
    (dir point : Vec3) (objects : list Primitive) : run (option Color.t) :=
  let rayOrigin := add point (scale dir 0.001) in
  let ray := mkRay rayOrigin dir in
  let hit := findClosestIntersection ray objects in
  match Intersection.object hit with
  | Some hitObject =>
      hitNormal <- lift (getNormal hitObject (Intersection.point hit)) ;;
      hitPoint <- lift (vector (Intersection.point hit)) ;;
      let hitViewDir := normalize (subtract (origin ray) hitPoint) in
      color <- shade (Object.material hitObject) hitNormal hitViewDir hitPoint
                 (Some hitObject) ;;
      ret (Some color)
  | None => ret None
  end.

(** The specular-only loop of the refractive branch, lines 511-522. *)
Definition glassHighlights (material : Material.t) (lights : list Light.t)
    (normal viewDir point : Vec3) (finalColor : Color.t) : Color.t :=
  fold_left
    (fun finalColor light =>
       let lightDir := normalize (subtract (Light.position light) point) in
       let specular :=
         calculateSpecular material light normal lightDir viewDir in
       Color.rgb (Color.r finalColor + Color.r specular * 0.5)
                 (Color.g finalColor + Color.g specular * 0.5)
                 (Color.b finalColor + Color.b specular * 0.5))
    lights finalColor.

(** The loop over the lights of the opaque branch, lines 526-546. *)
Definition directLighting (material : Material.t) (lights : list Light.t)
    (normal viewDir point : Vec3) (objects : list Primitive)
    (currentObject : option Primitive) (finalColor : Color.t) : Color.t :=
  fold_left
    (fun finalColor light =>
       let lightDir := normalize (subtract (Light.position light) point) in
       if isInShadow point (Light.position light) objects currentObject
       then finalColor
       else
         let diffuse := calculateDiffuse material light normal lightDir in
         let specular :=
           calculateSpecular material light normal lightDir viewDir in
         Color.rgb
           (Color.r finalColor + (Color.r diffuse + Color.r specular))
           (Color.g finalColor + (Color.g diffuse + Color.g specular))
           (Color.b finalColor + (Color.b diffuse + Color.b specular)))
    lights finalColor.

(** The body of [calculatePhongLighting], lines 393-596, with the function
    it calls recursively as the parameter [self].  Every argument is
    present, so the guard of line 394 does not fire; each entry into the
    function and each call of [refract] is recorded in the log. *)
Definition calculatePhongLighting_body
    (self : Material.t -> list Light.t -> Vec3 -> Vec3 -> Vec3
            -> list Primitive -> option Primitive -> nat -> run Color.t)
    (material : Material.t) (lights : list Light.t)
    (normal viewDir point : Vec3) (objects : list Primitive)
    (currentObject : option Primitive) (depth : nat) : run Color.t :=
  let shade := fun material normal viewDir point currentObject =>
    self material lights normal viewDir point objects currentObject
      (depth + 1)%nat in
  tell (Call depth material) ;;;
  if (MAX_DEPTH <? depth)%nat then ret (Color.rgb 0 0 0)
  else
    light0 <- lift (firstLight lights) ;;
    let finalColor := Color.rgb
      (Color.r (Material.ambient material) * Color.r (Light.ambient light0))
      (Color.g (Material.ambient material) * Color.g (Light.ambient light0))
      (Color.b (Material.ambient material) * Color.b (Light.ambient light0))
    in
    finalColor <-
      (if Material.isRefractive material
          && (0 <? Material.transparency material)
       then
         let fresnelReflectivity :=
           fresnelReflectivity material viewDir normal in
         finalColor <-
           (if 0 <? fresnelReflectivity then
              let reflectDir := reflect (scale viewDir (-1)) normal in
              reflection <- secondaryRay shade reflectDir point objects ;;
              match reflection with
              | Some reflectionColor =>
                  ret (Color.rgb
                    (Color.r finalColor
                     + Color.r reflectionColor * fresnelReflectivity)
                    (Color.g finalColor
                     + Color.g reflectionColor * fresnelReflectivity)
                    (Color.b finalColor
                     + Color.b reflectionColor * fresnelReflectivity))
              | None => ret finalColor
              end
            else ret finalColor) ;;
         let refractFactor := refractFactor material viewDir normal in
         finalColor <-
           (if 0 <? refractFactor then
              tell (Refract material) ;;;
              refractDir <- lift (refract (scale viewDir (-1)) normal
                                    (Material.ior material)) ;;
              refraction <- secondaryRay shade refractDir point objects ;;
              let refractionColor :=
                match refraction with
                | Some refractionColor => refractionColor
                | None => backgroundColor
                end in
              ret (Color.rgb
                (Color.r finalColor
                 + Color.r refractionColor * Material.transparency material
                   * refractFactor)
                (Color.g finalColor
                 + Color.g refractionColor * Material.transparency material
                   * refractFactor)
                (Color.b finalColor
                 + Color.b refractionColor * Material.transparency material
                   * refractFactor))
            else ret finalColor) ;;
         ret (glassHighlights material lights normal viewDir point
                finalColor)
       else
         let finalColor :=
           directLighting material lights normal viewDir point objects
             currentObject finalColor in
         if (0 <? Material.reflectivity material)
            && (depth <? MAX_DEPTH)%nat
         then
           let reflectDir := reflect (scale viewDir (-1)) normal in
           reflection <- secondaryRay shade reflectDir point objects ;;
           match reflection with
           | Some reflectionColor =>
               ret (Color.rgb
                 (Color.r finalColor
                  + Color.r reflectionColor * Material.reflectivity material)
                 (Color.g finalColor
                  + Color.g reflectionColor * Material.reflectivity material)
                 (Color.b finalColor
                  + Color.b reflectionColor * Material.reflectivity material))
           | None => ret finalColor
           end
         else ret finalColor) ;;
    ret (Color.rgb (Rmin (Color.r finalColor) 1)
                   (Rmin (Color.g finalColor) 1)
                   (Rmin (Color.b finalColor) 1)).

(** The recursion of the script is not structural, so the function is
    tied by a number of nested calls it may make ([fuel]) and answers
    [exhausted] when there is none left. *)
Fixpoint calculatePhongLighting_fuel (fuel : nat) (material : Material.t)
    (lights : list Light.t) (normal viewDir point : Vec3)
    (objects : list Primitive) (currentObject : option Primitive)
    (depth : nat) {struct fuel} : run Color.t :=
  match fuel with
  | O => exhausted
  | S fuel' =>
      calculatePhongLighting_body (calculatePhongLighting_fuel fuel')
        material lights normal viewDir point objects currentObject depth
  end.

(** The engine itself: [MAX_DEPTH + 2 - depth] nested calls, and one call
    in any case, are always enough (see [calculatePhongLighting_fuel_enough]
    and [calculatePhongLighting_fuel_more]). *)
Definition calculatePhongLighting (material : Material.t)
    (lights : list Light.t) (normal viewDir point : Vec3)
    (objects : list Primitive) (currentObject : option Primitive)
    (depth : nat) : run Color.t :=
  calculatePhongLighting_fuel (S (MAX_DEPTH + 1 - depth)) material lights
    normal viewDir point objects currentObject depth.

(** ** Inputs used to evaluate the definitions *)

Definition unit_z : Vec3 := mkVec3 0 0 1.

(** A ray that leaves a medium at a grazing angle: its direction has a
    positive component along the normal [unit_z]. *)
Definition grazing : Vec3 := mkVec3 0.8 0 0.6.

(** The materials, lights and objects that [init] builds. *)
Definition redMaterial : Material.t :=
  Material.mk (Color.rgb 0.1 0 0) (Color.rgb 0.7 0 0) (Color.rgb 0.3 0.3 0.3)
    32 0.4 0 1 false.

Definition glassMaterial : Material.t :=
  Material.mk (Color.rgb 0.1 0.1 0.1) (Color.rgb 0.1 0.1 0.1)
    (Color.rgb 0.9 0.9 0.9) 128 0.2 0.8 1.5 true.

Definition blueMaterial : Material.t :=
  Material.mk (Color.rgb 0 0 0.1) (Color.rgb 0 0 0.7) (Color.rgb 0.3 0.3 0.3)
    32 0.5 0 1 false.

Definition floorMaterial : Material.t :=
  Material.mk (Color.rgb 0.1 0.1 0.1) (Color.rgb 0.5 0.5 0.5)
    (Color.rgb 0.05 0.05 0.05) 8 0.2 0 1 false.

Definition lights : list Light.t :=
  [ Light.mk (mkVec3 2 3 (-1)) (Color.rgb 0.2 0.2 0.2)
      (Color.rgb 0.7 0.7 0.7) (Color.rgb 1 1 1);
    Light.mk (mkVec3 (-3) 2 (-3)) (Color.rgb 0.1 0.1 0.1)
      (Color.rgb 0.5 0.5 0.8) (Color.rgb 0.7 0.7 1) ].

Definition objects : list Primitive :=
  [ ASphere (Sphere.mk 0 (mkVec3 (-1.5) 0 (-5)) 1 redMaterial);
    ASphere (Sphere.mk 1 (mkVec3 1.5 0 (-5)) 1 glassMaterial);
    ASphere (Sphere.mk 2 (mkVec3 0 0 (-7)) 1.2 blueMaterial);
    APlane (Plane.mk 3 (mkVec3 0 (-1.3) 0) (mkVec3 0 1 0) floorMaterial) ].

(** The camera ray, sphere and light of the end-to-end test of the
    specification (section 8). *)
Definition down : Vec3 := mkVec3 0 0 (-1).

Definition cameraRay : Ray := mkRay (mkVec3 0 0 0) down.

Definition redSphere : Sphere.t :=
  Sphere.mk 0 (mkVec3 0 0 (-5)) 1 redMaterial.

(** A shadow scene: a light four units above the shaded point, a tinted
    pane (transparency 0.6) one unit above the point and an opaque wall two
    units above it. *)
Definition shadedPoint : Vec3 := mkVec3 0 0 0.
Definition lampPosition : Vec3 := mkVec3 0 0 4.

Definition tintedMaterial : Material.t :=
  Material.mk (Color.rgb 0.1 0.1 0.1) (Color.rgb 0.1 0.1 0.1)
    (Color.rgb 0.9 0.9 0.9) 128 0.2 0.6 1.5 true.

Definition tintedPane : Primitive :=
  APlane (Plane.mk 10 (mkVec3 0 0 1) unit_z tintedMaterial).

Definition opaqueWall : Primitive :=
  APlane (Plane.mk 11 (mkVec3 0 0 2) unit_z redMaterial).

Definition lamp : Light.t :=
  Light.mk lampPosition (Color.rgb 0.2 0.2 0.2) (Color.rgb 0.7 0.7 0.7)
    (Color.rgb 1 1 1).

(** The shadow ray that [isInShadow] builds from [shadedPoint] towards
    [lampPosition]. *)
Definition lampRay : Ray :=
  mkRay (add shadedPoint (scale unit_z 0.001)) unit_z.

(** ** Predicates of the statements *)

Definition nonneg (c : Color.t) : Prop :=
  0 <= Color.r c /\ 0 <= Color.g c /\ 0 <= Color.b c.

Definition in_unit_range (c : Color.t) : Prop :=
  0 <= Color.r c <= 1 /\ 0 <= Color.g c <= 1 /\ 0 <= Color.b c <= 1.

Definition nonneg_material (m : Material.t) : Prop :=
  nonneg (Material.ambient m) /\ nonneg (Material.diffuse m)
  /\ nonneg (Material.specular m).

Definition nonneg_light (l : Light.t) : Prop :=
  nonneg (Light.ambient l) /\ nonneg (Light.diffuse l)
  /\ nonneg (Light.specular l).

(** [best] is the answer of the resolver for the objects seen so far. *)
Definition resolved (ray : Ray) (seen : list Primitive)
    (best : Intersection.value) : Prop :=
  (best = noIntersection
   /\ forall o, In o seen -> intersect ray o <= 0.001)
  \/ exists o,
       In o seen
       /\ best = Intersection.mk (Finite (intersect ray o)) (Some o)
                   (Some (add (origin ray)
                            (scale (direction ray) (intersect ray o))))
       /\ 0.001 < intersect ray o
       /\ forall o', In o' seen -> 0.001 < intersect ray o' ->
                     intersect ray o <= intersect ray o'.

(** The materials the specification calls well formed: no negative colour
    component, reflectivity and transparency in [0,1], and a positive
    shininess. *)
Definition well_formed_material (m : Material.t) : Prop :=
  nonneg_material m
  /\ 0 <= Material.reflectivity m <= 1
  /\ 0 <= Material.transparency m <= 1
  /\ 0 < Material.shininess m.

Definition well_formed_scene (objects : list Primitive)
    (lights : list Light.t) : Prop :=
  Forall (fun o => well_formed_material (Object.material o)) objects
  /\ Forall nonneg_light lights.

Definition scene_nonneg (objects : list Primitive) (lights : list Light.t)
    : Prop :=
  Forall (fun o => nonneg_material (Object.material o)) objects
  /\ Forall nonneg_light lights.

(** A run all of whose events satisfy [E] and which ends in a value
    satisfying [P], in an exception satisfying [X], or, when [N] holds,
    without an answer. *)
Definition sat {A : Type} (E : event -> Prop) (P : A -> Prop)
    (X : exn -> Prop) (N : Prop) (m : run A) : Prop :=
  Forall E (log m)
  /\ match outcome m with
     | Some (Ok a) => P a
     | Some (Throw e) => X e
     | None => N
     end.

(** What holds of the events of a trace entered at depth [d0]: the calls
    are at depths from [d0] up to [MAX_DEPTH + 1], and [refract] is called
    only for a refractive material with a positive transparency. *)
Definition event_ok (d0 : nat) (e : event) : Prop :=
  match e with
  | Call d _ => (d0 <= d <= Nat.max d0 (MAX_DEPTH + 1))%nat
  | Refract m =>
      Material.isRefractive m = true /\ 0 < Material.transparency m
  end.

(** ** Predicates of the further statements *)

(** The point of a ray at parameter [t], as both [getIntersectionPoint]
    methods compute it. *)
Definition pointAt (ray : Ray) (t : R) : Vec3 :=
  add (origin ray) (scale (direction ray) t).

Definition on_sphere (s : Sphere.t) (p : Vec3) : Prop :=
  dot (subtract p (Sphere.center s)) (subtract p (Sphere.center s))
  = Sphere.radius s * Sphere.radius s.

Definition on_plane (p : Plane.t) (q : Vec3) : Prop :=
  dot (subtract q (Plane.point p)) (Plane.normal p) = 0.

(** The shadow ray and the distance to the light that [isInShadow]
    computes before its loop. *)
Definition shadowRayOf (point lightPos : Vec3) : Ray :=
  mkRay (add point (scale (normalize (subtract lightPos point)) 0.001))
    (normalize (subtract lightPos point)).

(** The test [t > 0.001 && t < distanceToLight] of the shadow loops. *)
Definition inRange (shadowRay : Ray) (distanceToLight : R)
    (object : Primitive) : bool :=
  (0.001 <? intersect shadowRay object)
  && (intersect shadowRay object <? distanceToLight).

(** The objects at which the loop of [isInShadow] moves on: the current
    object, an object that is not hit in range, and an object with a
    transparency of at least 0.9. *)
Definition passedOver (shadowRay : Ray) (distanceToLight : R)
    (currentObject : option Primitive) (object : Primitive) : bool :=
  same_object object currentObject
  || negb (inRange shadowRay distanceToLight object)
  || (0.9 <=? Material.transparency (Object.material object)).

(** ** LIGHTING.JS as a separate file

    [lighting.js] declares its own [Material], [reflect],
    [calculateSpecular] and [isInShadow].  The names it does not declare
    ([dot], [subtract], [scale], [Ray], [Sphere], [Plane],
    [intersectRaySphere], [intersectRayPlane]) are read as the helpers
    above. *)
Module Legacy.

Record Material : Type := mkMaterial {
  ambient : Color.t;
  diffuse : Color.t;
  specular : Color.t;
  shininess : R;
  reflectivity : R;
  transparency : R;
  refractionIndex : R
}.

(** A default parameter value stands in for a missing argument only. *)
Definition constructor (ambient diffuse specular : option Color.t)
    (shininess reflectivity transparency refractionIndex : option R)
    : result Material :=
  match ambient, diffuse, specular with
  | Some a, Some d, Some s =>
      Ok (mkMaterial a d s (number_or shininess 32)
            (object_or reflectivity 0) (object_or transparency 0)
            (object_or refractionIndex 1))
  | _, _, _ =>
      Throw (Error "Material requires ambient, diffuse, and specular properties")
  end.

Definition reflect (incident normal : Vec3) : Vec3 :=
  let dotProduct := dot incident normal in
  subtract (scale normal (2 * dotProduct)) incident.

Definition calculateSpecular (material : Material) (light : Light.t)
    (normal lightDir viewDir : Vec3) : Color.t :=
  let reflectDir := reflect lightDir normal in
  let spec :=
    Math_pow (Rmax (dot viewDir reflectDir) 0) (shininess material) in
  Color.rgb
    (Color.r (specular material) * Color.r (Light.specular light) * spec)
    (Color.g (specular material) * Color.g (Light.specular light) * spec)
    (Color.b (specular material) * Color.b (Light.specular light) * spec).

(** The loop of the file's [isInShadow], lines 93-108. *)
Fixpoint shadowScan (shadowRay : Ray) (distanceToLight : R)
    (currentObject : option Primitive) (objects : list Primitive) : bool :=
  match objects with
  | [] => false
  | object :: rest =>
      if same_object object currentObject
      then shadowScan shadowRay distanceToLight currentObject rest
      else
        let t := intersect shadowRay object in
        if (0.001 <? t) && (t <? distanceToLight) then true
        else shadowScan shadowRay distanceToLight currentObject rest
  end.

Definition isInShadow (point lightPos : Vec3) (objects : list Primitive)
    (currentObject : option Primitive) : bool :=
  let lightDir := normalize (subtract lightPos point) in
  let shadowRayOrigin := add point (scale lightDir 0.001) in
  let shadowRay := mkRay shadowRayOrigin lightDir in
  let distanceToLight := length (subtract lightPos point) in
  shadowScan shadowRay distanceToLight currentObject objects.

End Legacy.

(** The opaque materials and the scenes made of them. *)
Definition opaque (object : Primitive) : Prop :=
  Material.transparency (Object.material object) <= 0.

(** The materials for which the engine takes its opaque branch: the test
    [material.isRefractive && material.transparency > 0] fails. *)
Definition plain (m : Material.t) : Prop :=
  Material.isRefractive m = false \/ Material.transparency m <= 0.

(** The number of invocations of the engine recorded in a log. *)
Definition isCall (e : event) : bool :=
  match e with
  | Call _ _ => true
  | Refract _ => false
  end.


(** The clamp that ends [calculatePhongLighting]. *)
Definition clampColor (c : Color.t) : Color.t :=
  Color.rgb (Rmin (Color.r c) 1) (Rmin (Color.g c) 1) (Rmin (Color.b c) 1).

(** A material without reflection, for the shadow scene. *)
Definition matteMaterial : Material.t :=
  Material.mk (Color.rgb 0.1 0.1 0.1) (Color.rgb 0.5 0.5 0.5)
    (Color.rgb 0.05 0.05 0.05) 8 0 0 1 false.

(** ** MAIN CODE: the pixel loop of [render]

    The canvas, its image data and the logging are outside the model.  What
    is embedded is the body of the loop over [x] and [y]: the index at which
    a pixel is written, the ray through it, and the four values assigned at
    [pixelIndex] to [pixelIndex + 3] (the image data rounds them on
    storage). *)

Definition cameraPos : Vec3 := mkVec3 0 0 0.

Definition pixelIndex (width x y : nat) : nat := (y * width + x) * 4.

Definition ndcX (width x : nat) : R := 2 * INR x / INR width - 1.

Definition ndcY (height y : nat) : R := 1 - 2 * INR y / INR height.

Definition primaryRay (width height x y : nat) : Ray :=
  let rayDir := normalize (mkVec3 (ndcX width x) (ndcY height y) (-1)) in
  mkRay cameraPos rayDir.






(** * Properties *)

(** ** Comparisons and [Math.pow] *)

Lemma Rltb_true (x y : R) : (x <? y) = true <-> x < y.
Proof. unfold Rltb. destruct (Rlt_dec x y); split; intros; try easy. Qed.

Lemma Rltb_false (x y : R) : (x <? y) = false <-> y <= x.
Proof.
  unfold Rltb. destruct (Rlt_dec x y); split; intros; try easy; lra.
Qed.

Lemma Rleb_true (x y : R) : (x <=? y) = true <-> x <= y.
Proof. unfold Rleb. destruct (Rle_dec x y); split; intros; try easy. Qed.

Lemma Rleb_false (x y : R) : (x <=? y) = false <-> y < x.
Proof.
  unfold Rleb. destruct (Rle_dec x y); split; intros; try easy; lra.
Qed.

Lemma Reqb_true (x y : R) : (x =? y) = true <-> x = y.
Proof. unfold Reqb. destruct (Req_dec_T x y); split; intros; try easy. Qed.

Lemma Reqb_false (x y : R) : (x =? y) = false <-> x <> y.
Proof. unfold Reqb. destruct (Req_dec_T x y); split; intros; try easy. Qed.

(** Decides the comparisons, [Math.min], [Math.max] and [Math.abs] of a
    goal whose operands are numerals. *)
Ltac eval_cmp :=
  repeat match goal with
  | |- context [Rltb ?a ?b] =>
      first [ rewrite (proj2 (Rltb_true a b)) by lra
            | rewrite (proj2 (Rltb_false a b)) by lra ]
  | |- context [Rleb ?a ?b] =>
      first [ rewrite (proj2 (Rleb_true a b)) by lra
            | rewrite (proj2 (Rleb_false a b)) by lra ]
  | |- context [Reqb ?a ?b] =>
      first [ rewrite (proj2 (Reqb_true a b)) by lra
            | rewrite (proj2 (Reqb_false a b)) by lra ]
  | |- context [Rmax ?a ?b] =>
      first [ rewrite (Rmax_left a b) by lra
            | rewrite (Rmax_right a b) by lra ]
  | |- context [Rmin ?a ?b] =>
      first [ rewrite (Rmin_left a b) by lra
            | rewrite (Rmin_right a b) by lra ]
  | |- context [Rabs ?a] =>
      first [ rewrite (Rabs_pos_eq a) by lra
            | rewrite (Rabs_left1 a) by lra ]
  end.

(** Replaces a square root whose argument is the square of [c]. *)
Ltac sqrt_is c :=
  match goal with
  | |- context [sqrt ?x] =>
      replace (sqrt x) with c
        by (replace x with (c * c) by lra; rewrite sqrt_square by lra;
            reflexivity)
  end.

Lemma Math_pow_nat (x : R) (n : nat) : Math_pow x (INR n) = x ^ n.
Proof.
  unfold Math_pow. rewrite Int_part_INR.
  destruct (Req_dec_T (INR n) (IZR (Z.of_nat n))) as [_ | H].
  - rewrite <- pow_powerRZ. reflexivity.
  - exfalso. apply H. apply INR_IZR_INZ.
Qed.

Lemma Math_pow_5 (x : R) : Math_pow x 5 = x ^ 5.
Proof.
  replace 5 with (INR 5) by (simpl; lra). apply Math_pow_nat.
Qed.

Lemma Math_pow_nonneg (x y : R) : 0 <= x -> 0 <= Math_pow x y.
Proof.
  intros Hx. unfold Math_pow.
  destruct (Req_dec_T y (IZR (Int_part y))) as [_ | _].
  - destruct (Int_part y) as [ | p | p ]; simpl.
    + lra.
    + apply pow_le; exact Hx.
    + destruct (Req_dec_T (x ^ Pos.to_nat p) 0) as [E | E].
      * rewrite E, Rinv_0. lra.
      * left. apply Rinv_0_lt_compat.
        assert (0 <= x ^ Pos.to_nat p) by (apply pow_le; exact Hx). lra.
  - destruct (Rlt_dec 0 x).
    + left. apply exp_pos.
    + lra.
Qed.

(** ** Vectors *)

Lemma length_unit (v : Vec3) : length v = 1 -> dot v v = 1.
Proof.
  unfold length, dot. intros H.
  set (s := vx v * vx v + vy v * vy v + vz v * vz v) in *.
  assert (Hs : 0 <= s) by (unfold s; nra).
  rewrite <- (sqrt_sqrt s Hs), H. lra.
Qed.

(** Cauchy-Schwarz for unit vectors, through Lagrange's identity. *)
Lemma dot_unit_bound (a c : Vec3) :
  length a = 1 -> length c = 1 -> Rabs (dot a c) <= 1.
Proof.
  intros Ha Hc. apply length_unit in Ha. apply length_unit in Hc.
  destruct a as [a1 a2 a3], c as [c1 c2 c3]. unfold dot in *. simpl in *.
  assert (H : (a1 * c1 + a2 * c2 + a3 * c3) * (a1 * c1 + a2 * c2 + a3 * c3)
              <= 1).
  { replace 1 with ((a1 * a1 + a2 * a2 + a3 * a3)
                    * (c1 * c1 + c2 * c2 + c3 * c3))
      by (rewrite Ha, Hc; lra).
    pose proof (Rle_0_sqr (a1 * c2 - a2 * c1)).
    pose proof (Rle_0_sqr (a1 * c3 - a3 * c1)).
    pose proof (Rle_0_sqr (a2 * c3 - a3 * c2)).
    unfold Rsqr in *. nra. }
  apply Rabs_le. nra.
Qed.

Lemma length_unit_z : length unit_z = 1.
Proof. unfold length, unit_z. simpl. sqrt_is 1. reflexivity. Qed.

Lemma length_grazing : length grazing = 1.
Proof. unfold length, grazing. simpl. sqrt_is 1. reflexivity. Qed.

(** ** [refract] *)

(** The clamp of [refract] keeps the sign of the dot product. *)
Lemma clamp_pos (d : R) : 0 < d -> 0 < Rmin (Rmax d (-1)) 1.
Proof.
  intros H. apply Rmin_glb_lt; [ | lra ].
  apply Rlt_le_trans with d; [ exact H | apply Rmax_l ].
Qed.

Lemma clamp_nonpos (d : R) : d <= 0 -> Rmin (Rmax d (-1)) 1 <= 0.
Proof.
  intros H. apply Rle_trans with (Rmax d (-1)); [ apply Rmin_l | ].
  apply Rmax_lub; lra.
Qed.

(** A ray with a positive component along the normal takes the branch
    that assigns to [cosi]. *)
Lemma refract_exiting (incident normal : Vec3) (ior : R) :
  0 < dot incident normal ->
  refract incident normal ior = Throw const_assignment.
Proof.
  intros H. unfold refract.
  assert (E : (- Rmin (Rmax (dot incident normal) (-1)) 1 <? 0) = true).
  { apply Rltb_true. pose proof (clamp_pos _ H). lra. }
  rewrite E. reflexivity.
Qed.

Lemma refract_entering (incident normal : Vec3) (ior : R) :
  dot incident normal <= 0 ->
  refract incident normal ior =
  let cosi := - Rmin (Rmax (dot incident normal) (-1)) 1 in
  let eta := 1 / ior in
  let k := 1 - eta * eta * (1 - cosi * cosi) in
  if k <? 0 then Ok (reflect incident normal)
  else Ok (add (scale incident eta) (scale normal (eta * cosi - sqrt k))).
Proof.
  intros H. unfold refract.
  assert (E : (- Rmin (Rmax (dot incident normal) (-1)) 1 <? 0) = false).
  { apply Rltb_false. pose proof (clamp_nonpos _ H). lra. }
  rewrite E. reflexivity.
Qed.

(** On the entering side the two fallbacks of [refract] are as the
    specification has them: total internal reflection returns the mirror
    direction, and equal indices leave the ray unbent. *)
Lemma refract_entering_total_internal_reflection
    (incident normal : Vec3) (ior : R) :
  dot incident normal <= 0 ->
  refract_spec_k incident normal ior < 0 ->
  refract incident normal ior = Ok (reflect incident normal).
Proof.
  intros H Hk. rewrite refract_entering by exact H. cbv zeta.
  unfold refract_spec_k in Hk.
  assert (E : (- Rmin (Rmax (dot incident normal) (-1)) 1 <? 0) = false).
  { apply Rltb_false. pose proof (clamp_nonpos _ H). lra. }
  rewrite E in Hk. apply Rltb_true in Hk. rewrite Hk. reflexivity.
Qed.

Lemma refract_entering_same_index (v n : Vec3) :
  dot v n <= 0 -> refract v n 1 = Ok v.
Proof.
  intros H. rewrite refract_entering by exact H. cbv zeta.
  pose proof (clamp_nonpos _ H) as Hc.
  set (c := - Rmin (Rmax (dot v n) (-1)) 1) in *.
  assert (Hc' : 0 <= c) by (unfold c; lra).
  replace (1 - 1 / 1 * (1 / 1) * (1 - c * c)) with (c * c) by field.
  assert (E : (c * c <? 0) = false) by (apply Rltb_false; nra).
  rewrite E, sqrt_square by exact Hc'.
  destruct v as [x y z]. unfold add, scale. simpl. f_equal. f_equal; field.
Qed.

Lemma dot_unit_z : dot unit_z unit_z = 1.
Proof. unfold dot, unit_z; simpl. lra. Qed.

Lemma dot_grazing : dot grazing unit_z = 0.6.
Proof. unfold dot, grazing, unit_z; simpl. lra. Qed.

(** C2: a ray leaving the medium should have [cosi] negated, the indices
    swapped and the normal flipped, and come back as a vector.  For the
    ray along the normal [unit_z] of a medium of index 1.5 that vector is
    [unit_z] itself, but [refract] throws on the assignment to [cosi]. *)
Theorem C2_refract_exiting_ray_throws :
  dot unit_z unit_z = 1
  /\ refract_spec unit_z unit_z 1.5 = unit_z
  /\ refract unit_z unit_z 1.5 = Throw const_assignment.
Proof.
  split; [ exact dot_unit_z | split ].
  - unfold refract_spec, refract_spec_k. rewrite dot_unit_z.
    eval_cmp. sqrt_is 1.
    unfold add, scale, unit_z. simpl. f_equal; lra.
  - apply refract_exiting. rewrite dot_unit_z. lra.
Qed.

(** C6: with a negative discriminant [refract] should return
    [reflect incident normal].  The grazing ray leaving a medium of index
    1.5 has discriminant [-0.44], yet [refract] throws before the
    discriminant is computed. *)
Theorem C6_refract_total_internal_reflection_throws :
  refract_spec_k grazing unit_z 1.5 = -0.44
  /\ refract_spec grazing unit_z 1.5 = reflect grazing unit_z
  /\ refract grazing unit_z 1.5 = Throw const_assignment
  /\ refract grazing unit_z 1.5 <> Ok (reflect grazing unit_z).
Proof.
  assert (K : refract_spec_k grazing unit_z 1.5 = -0.44).
  { unfold refract_spec_k. rewrite dot_grazing. eval_cmp. lra. }
  assert (T : refract grazing unit_z 1.5 = Throw const_assignment).
  { apply refract_exiting. rewrite dot_grazing. lra. }
  repeat split.
  - exact K.
  - unfold refract_spec. rewrite K. cbv zeta. eval_cmp. reflexivity.
  - exact T.
  - rewrite T. discriminate.
Qed.

(** C9: with index 1 on both sides [refract v n 1] should be [v].  For
    the unit vector [unit_z] taken as both ray and normal it throws. *)
Theorem C9_refract_same_index_throws :
  length unit_z = 1
  /\ refract unit_z unit_z 1 = Throw const_assignment
  /\ refract unit_z unit_z 1 <> Ok unit_z.
Proof.
  assert (T : refract unit_z unit_z 1 = Throw const_assignment).
  { apply refract_exiting. rewrite dot_unit_z. lra. }
  repeat split.
  - exact length_unit_z.
  - exact T.
  - rewrite T. discriminate.
Qed.

(** ** The Fresnel weights *)

(** C10: for a reflectivity in [0,1] and unit [viewDir] and [normal], the
    Fresnel reflectivity lies in [0,1], the refraction weight
    [1 - fresnel] is not negative, and the two weights add up to 1. *)
Theorem C10_fresnel_weights (material : Material.t) (viewDir normal : Vec3) :
  0 <= Material.reflectivity material <= 1 ->
  length viewDir = 1 ->
  length normal = 1 ->
  Rabs (dot viewDir normal) <= 1
  /\ 0 <= fresnelReflectivity material viewDir normal <= 1
  /\ 0 <= refractFactor material viewDir normal
  /\ fresnelReflectivity material viewDir normal
     + refractFactor material viewDir normal = 1.
Proof.
  intros Hr Hv Hn.
  pose proof (dot_unit_bound viewDir normal Hv Hn) as Hd.
  pose proof (Rabs_pos (dot viewDir normal)) as Hd0.
  unfold refractFactor, fresnelReflectivity. rewrite Math_pow_5.
  set (a := 1 - Rabs (dot viewDir normal)) in *.
  assert (Ha : 0 <= a <= 1) by (unfold a; lra).
  assert (Hp : 0 <= a ^ 5 <= 1).
  { split; [ apply pow_le; lra | ].
    rewrite <- (pow1 5). apply pow_incr. lra. }
  split; [ exact Hd | ].
  split; [ nra | ]. split; [ nra | lra ].
Qed.

Lemma C10_fresnel_weights_witness :
  (0 <= Material.reflectivity glassMaterial <= 1
   /\ length unit_z = 1 /\ length grazing = 1)
  /\ Rabs (dot unit_z grazing) <= 1
  /\ 0 <= fresnelReflectivity glassMaterial unit_z grazing <= 1
  /\ 0 <= refractFactor glassMaterial unit_z grazing
  /\ fresnelReflectivity glassMaterial unit_z grazing
     + refractFactor glassMaterial unit_z grazing = 1.
Proof.
  assert (H : 0 <= Material.reflectivity glassMaterial <= 1)
    by (simpl; lra).
  split; [ split; [ exact H | split ] | ].
  - exact length_unit_z.
  - exact length_grazing.
  - apply C10_fresnel_weights;
      [ exact H | exact length_unit_z | exact length_grazing ].
Defined.

(** ** Construction *)

(** C8, as the script has it: each constructor throws exactly when a
    required argument is falsy, with a message that lists the required
    fields; for the radius of a sphere that means missing or [0], so a
    negative radius is accepted. *)
Theorem C8_constructors_fail_on_missing_fields :
  (forall ambient diffuse specular shininess options,
      Material.constructor ambient diffuse specular shininess options
      = Throw (Error
          "Material requires ambient, diffuse, and specular properties")
      <-> ambient = None \/ diffuse = None \/ specular = None)
  /\ (forall position ambient diffuse specular,
      Light.constructor position ambient diffuse specular
      = Throw (Error "Light requires position")
      <-> position = None)
  /\ (forall id center radius material,
      Sphere.constructor id center radius material
      = Throw (Error "Sphere requires center and radius")
      <-> center = None \/ radius = None \/ radius = Some 0)
  /\ (forall id point normal material,
      Plane.constructor id point normal material
      = Throw (Error "Plane requires point and normal")
      <-> point = None \/ normal = None)
  /\ (forall id center radius material,
      radius <> 0 ->
      Sphere.constructor id (Some center) (Some radius) material
      = Ok (Sphere.mk id center radius material)).
Proof.
  repeat split.
  - destruct ambient, diffuse, specular; simpl; intros H;
      try discriminate; auto.
  - intros [H | [H | H]]; subst; simpl.
    + reflexivity.
    + destruct ambient; reflexivity.
    + destruct ambient, diffuse; reflexivity.
  - destruct position; simpl; intros H; try discriminate; auto.
  - intros H; subst; reflexivity.
  - unfold Sphere.constructor.
    destruct center as [c | ], radius as [r | ]; simpl; auto.
    destruct (r =? 0) eqn:E; intros H; try discriminate.
    apply Reqb_true in E. subst. auto.
  - unfold Sphere.constructor. intros [H | [H | H]]; subst; simpl.
    + reflexivity.
    + destruct center; reflexivity.
    + assert (E : (0 =? 0) = true) by (apply Reqb_true; reflexivity).
      destruct center; simpl; rewrite ?E; reflexivity.
  - destruct point, normal; simpl; intros H; try discriminate; auto.
  - intros [H | H]; subst; simpl.
    + reflexivity.
    + destruct point; reflexivity.
  - intros id center radius material H. unfold Sphere.constructor. simpl.
    apply Reqb_false in H. rewrite H. reflexivity.
Qed.

Lemma C8_constructors_fail_on_missing_fields_witness :
  (-1 <> 0)
  /\ Sphere.constructor 0 (Some unit_z) (Some (-1)) redMaterial
     = Ok (Sphere.mk 0 unit_z (-1) redMaterial).
Proof.
  split; [ lra | ].
  apply (proj2 (proj2 (proj2 (proj2
           C8_constructors_fail_on_missing_fields)))).
  lra.
Defined.

(** C8 as stated fails: a sphere is constructed with the radius [-1],
    which is not positive. *)
Lemma C8_negative_radius_is_accepted :
  ~ (0 < -1)
  /\ Sphere.constructor 0 (Some unit_z) (Some (-1)) redMaterial
     = Ok (Sphere.mk 0 unit_z (-1) redMaterial)
  /\ ~ (forall id center radius material,
          (exists c r, center = Some c /\ radius = Some r /\ 0 < r)
          \/ exists e,
               Sphere.constructor id center radius material = Throw e).
Proof.
  assert (E : Sphere.constructor 0 (Some unit_z) (Some (-1)) redMaterial
              = Ok (Sphere.mk 0 unit_z (-1) redMaterial)).
  { unfold Sphere.constructor. simpl. eval_cmp. reflexivity. }
  split; [ lra | split; [ exact E | ] ].
  intros H.
  destruct (H 0%nat (Some unit_z) (Some (-1)) redMaterial)
    as [(c & r & _ & Hr & Hpos) | (e & He)].
  - inversion Hr; subst. lra.
  - rewrite E in He. discriminate.
Qed.

(** ** The intersection resolver *)

Lemma getIntersectionPoint_eq (object : Primitive) (ray : Ray) (t : R) :
  getIntersectionPoint object ray t
  = add (origin ray) (scale (direction ray) t).
Proof. destruct object; reflexivity. Qed.

Lemma closer_resolved (ray : Ray) (seen : list Primitive)
    (best : Intersection.value) (object : Primitive) :
  resolved ray seen best ->
  resolved ray (seen ++ [object]) (closer ray best object).
Proof.
  unfold closer. intros [[-> Hnone] | (o & Ho & -> & Hpos & Hmin)]; simpl.
  - rewrite andb_true_r.
    destruct (0.001 <? intersect ray object) eqn:E.
    + apply Rltb_true in E. right. exists object.
      rewrite getIntersectionPoint_eq.
      repeat split; [ apply in_or_app; right; left; reflexivity | exact E | ].
      intros o' Ho' Hpos'. apply in_app_or in Ho'.
      destruct Ho' as [Ho' | [<- | []]]; [ | lra ].
      specialize (Hnone o' Ho'). lra.
    + apply Rltb_false in E. left. split; [ reflexivity | ].
      intros o' Ho'. apply in_app_or in Ho'.
      destruct Ho' as [Ho' | [<- | []]]; [ apply Hnone; exact Ho' | exact E ].
  - destruct (0.001 <? intersect ray object) eqn:E;
      destruct (intersect ray object <? intersect ray o) eqn:E'; simpl;
      try apply Rltb_true in E; try apply Rltb_false in E;
      try apply Rltb_true in E'; try apply Rltb_false in E'.
    + right. exists object. rewrite getIntersectionPoint_eq.
      repeat split; [ apply in_or_app; right; left; reflexivity | exact E | ].
      intros o' Ho' Hpos'. apply in_app_or in Ho'.
      destruct Ho' as [Ho' | [<- | []]]; [ | lra ].
      specialize (Hmin o' Ho' Hpos'). lra.
    + right. exists o.
      repeat split; [ apply in_or_app; left; exact Ho | exact Hpos | ].
      intros o' Ho' Hpos'. apply in_app_or in Ho'.
      destruct Ho' as [Ho' | [<- | []]]; [ | exact E' ].
      apply Hmin; assumption.
    + right. exists o.
      repeat split; [ apply in_or_app; left; exact Ho | exact Hpos | ].
      intros o' Ho' Hpos'. apply in_app_or in Ho'.
      destruct Ho' as [Ho' | [<- | []]]; [ | lra ].
      apply Hmin; assumption.
    + right. exists o.
      repeat split; [ apply in_or_app; left; exact Ho | exact Hpos | ].
      intros o' Ho' Hpos'. apply in_app_or in Ho'.
      destruct Ho' as [Ho' | [<- | []]]; [ | lra ].
      apply Hmin; assumption.
Qed.

Lemma fold_closer_resolved (ray : Ray) (rest seen : list Primitive)
    (best : Intersection.value) :
  resolved ray seen best ->
  resolved ray (seen ++ rest) (fold_left (closer ray) rest best).
Proof.
  revert seen best. induction rest as [ | object rest IH ];
    intros seen best H; simpl.
  - rewrite app_nil_r. exact H.
  - replace (seen ++ object :: rest) with ((seen ++ [object]) ++ rest)
      by (rewrite <- app_assoc; reflexivity).
    apply IH. apply closer_resolved. exact H.
Qed.

Lemma findClosestIntersection_resolved (ray : Ray)
    (objects : list Primitive) :
  resolved ray objects (findClosestIntersection ray objects).
Proof.
  unfold findClosestIntersection.
  apply (fold_closer_resolved ray objects []).
  left. split; [ reflexivity | intros o [] ].
Qed.

(** C5: the resolver accepts only distances above 0.001; it returns the
    sentinel [{t: Infinity, object: null}] when no object of the list has
    such a distance, and otherwise the distance, the object and the point
    [origin + t * direction] of a hit whose accepted distance is the
    smallest over the whole list. *)
Theorem C5_findClosestIntersection_nearest (ray : Ray)
    (objects : list Primitive) :
  let hit := findClosestIntersection ray objects in
  ((forall o, In o objects -> ~ 0.001 < intersect ray o)
   /\ Intersection.t hit = Infinity
   /\ Intersection.object hit = None
   /\ Intersection.point hit = None)
  \/ exists o,
       In o objects
       /\ 0.001 < intersect ray o
       /\ (forall o', In o' objects -> 0.001 < intersect ray o' ->
                      intersect ray o <= intersect ray o')
       /\ Intersection.t hit = Finite (intersect ray o)
       /\ Intersection.object hit = Some o
       /\ Intersection.point hit
          = Some (add (origin ray) (scale (direction ray) (intersect ray o))).
Proof.
  intros hit.
  destruct (findClosestIntersection_resolved ray objects)
    as [[E Hnone] | (o & Ho & E & Hpos & Hmin)]; fold hit in E.
  - left. rewrite E.
    split; [ | repeat split ].
    intros o Ho Hpos. specialize (Hnone o Ho). lra.
  - right. exists o. rewrite E. repeat split; assumption.
Qed.

(** A hit names an object of the scene and comes with its point. *)
Lemma findClosestIntersection_hit (ray : Ray) (objects : list Primitive)
    (o : Primitive) :
  Intersection.object (findClosestIntersection ray objects) = Some o ->
  In o objects
  /\ exists p, Intersection.point (findClosestIntersection ray objects)
               = Some p.
Proof.
  destruct (findClosestIntersection_resolved ray objects)
    as [[E _] | (o' & Ho' & E & _)]; rewrite E; simpl.
  - discriminate.
  - intros H. inversion H; subst. split; [ exact Ho' | eauto ].
Qed.

(** ** The shadow test *)

(** What the scan does at an occluder other than the current object whose
    transparency is in [0.5, 0.9) and whose hit is in range: it answers
    [false] there, whatever follows in the list. *)
Lemma shadowScan_partially_transparent (shadowRay : Ray)
    (distanceToLight : R) (currentObject : option Primitive)
    (object : Primitive) (rest : list Primitive) :
  same_object object currentObject = false ->
  0.5 <= Material.transparency (Object.material object) < 0.9 ->
  0.001 < intersect shadowRay object < distanceToLight ->
  shadowScan shadowRay distanceToLight currentObject (object :: rest)
  = false.
Proof.
  intros Hcur [Hlo Hhi] [Hnear Hfar]. cbn [shadowScan]. rewrite Hcur.
  cbv zeta.
  rewrite (proj2 (Rltb_true 0 _)) by lra.
  rewrite (proj2 (Rltb_true 0.001 _)) by exact Hnear.
  rewrite (proj2 (Rltb_true _ distanceToLight)) by exact Hfar.
  rewrite (proj2 (Rleb_false 0.9 _)) by exact Hhi.
  apply Rltb_false. exact Hlo.
Qed.

Lemma normalize_lamp : normalize (subtract lampPosition shadedPoint) = unit_z.
Proof.
  unfold normalize, subtract, lampPosition, shadedPoint, unit_z. simpl.
  sqrt_is 4. eval_cmp. f_equal; lra.
Qed.

Lemma length_lamp : length (subtract lampPosition shadedPoint) = 4.
Proof.
  unfold length, subtract, lampPosition, shadedPoint. simpl.
  sqrt_is 4. reflexivity.
Qed.

(** The shadow ray of the scene meets the pane at distance 0.999 and the
    wall at distance 1.999. *)
Lemma intersect_tintedPane : intersect lampRay tintedPane = 0.999.
Proof.
  unfold lampRay, intersect, tintedPane, intersectRayPlane, dot, subtract,
    add, scale, shadedPoint, unit_z.
  simpl. eval_cmp. lra.
Qed.

Lemma intersect_opaqueWall : intersect lampRay opaqueWall = 1.999.
Proof.
  unfold lampRay, intersect, opaqueWall, intersectRayPlane, dot, subtract,
    add, scale, shadedPoint, unit_z.
  simpl. eval_cmp. lra.
Qed.

Lemma isInShadow_lamp (objects : list Primitive) :
  isInShadow shadedPoint lampPosition objects None
  = shadowScan lampRay 4 None objects.
Proof.
  unfold isInShadow. rewrite normalize_lamp, length_lamp. reflexivity.
Qed.

(** C1: an occluder with transparency in [0.5, 0.9) hit in range should
    decide nothing and leave the answer to the next occluder.  With the
    tinted pane (transparency 0.6, hit at 0.999 of 4) in front of the
    opaque wall, the wall alone puts the point in shadow and so does the
    rule as the specification words it, but [isInShadow] answers [false] at
    the pane and never reaches the wall. *)
Theorem C1_isInShadow_stops_at_partially_transparent_occluder :
  0.5 <= Material.transparency (Object.material tintedPane) < 0.9
  /\ 0.001 < intersect lampRay tintedPane < 4
  /\ Material.transparency (Object.material opaqueWall) = 0
  /\ 0.001 < intersect lampRay opaqueWall < 4
  /\ isInShadow shadedPoint lampPosition [opaqueWall] None = true
  /\ isInShadow_spec shadedPoint lampPosition [tintedPane; opaqueWall] None
     = true
  /\ isInShadow shadedPoint lampPosition [tintedPane; opaqueWall] None
     = false.
Proof.
  assert (Hpane : 0.5 <= Material.transparency (Object.material tintedPane)
                  < 0.9) by (simpl; lra).
  assert (Hwall : Material.transparency (Object.material opaqueWall) = 0)
    by reflexivity.
  split; [ exact Hpane | ].
  split; [ rewrite intersect_tintedPane; lra | ].
  split; [ exact Hwall | ].
  split; [ rewrite intersect_opaqueWall; lra | ].
  split; [ | split ].
  - rewrite isInShadow_lamp. cbn [shadowScan same_object]. cbv zeta.
    rewrite intersect_opaqueWall, Hwall. eval_cmp. reflexivity.
  - unfold isInShadow_spec. rewrite normalize_lamp, length_lamp.
    fold lampRay. cbn [shadowScan_spec same_object]. cbv zeta.
    rewrite intersect_tintedPane, intersect_opaqueWall, Hwall.
    replace (Material.transparency (Object.material tintedPane)) with 0.6
      by reflexivity.
    eval_cmp. reflexivity.
  - rewrite isInShadow_lamp. apply shadowScan_partially_transparent.
    + reflexivity.
    + exact Hpane.
    + rewrite intersect_tintedPane. lra.
Qed.

(** ** Runs *)

Section Sat.
Context {A B : Type}.
Variables (E : event -> Prop) (X : exn -> Prop) (N : Prop).

Lemma sat_ret (P : A -> Prop) (a : A) : P a -> sat E P X N (ret a).
Proof. intros H. split; [ constructor | exact H ]. Qed.

Lemma sat_lift (P : A -> Prop) (r : result A) :
  match r with Ok a => P a | Throw e => X e end -> sat E P X N (lift r).
Proof. intros H. split; [ constructor | exact H ]. Qed.

Lemma sat_exhausted (P : A -> Prop) : N -> sat E P X N exhausted.
Proof. intros H. split; [ constructor | exact H ]. Qed.

Lemma sat_bind (Q : A -> Prop) (P : B -> Prop) (m : run A)
    (f : A -> run B) :
  sat E Q X N m ->
  (forall a, Q a -> sat E P X N (f a)) ->
  sat E P X N (bind m f).
Proof.
  intros [Hlog Hout] Hf. unfold bind.
  destruct (outcome m) as [[a | e] | ].
  - destruct (Hf a Hout) as [Hlog' Hout']. split; simpl.
    + apply Forall_app. split; assumption.
    + exact Hout'.
  - split; simpl; assumption.
  - split; simpl; assumption.
Qed.

Lemma sat_weaken (P P' : A -> Prop) (m : run A) :
  (forall a, P a -> P' a) -> sat E P X N m -> sat E P' X N m.
Proof.
  intros H [Hlog Hout]. split; [ exact Hlog | ].
  destruct (outcome m) as [[a | e] | ]; auto.
Qed.
End Sat.

Lemma sat_tell (E : event -> Prop) (X : exn -> Prop) (N : Prop)
    (e : event) :
  E e -> sat E (fun _ => True) X N (tell e).
Proof. intros H. split; [ repeat constructor; exact H | exact I ]. Qed.

Lemma sat_weaken_exhausted {A : Type} (E : event -> Prop) (P : A -> Prop)
    (X : exn -> Prop) (N N' : Prop) (m : run A) :
  (N -> N') -> sat E P X N m -> sat E P X N' m.
Proof.
  intros H [Hlog Hout]. split; [ exact Hlog | ].
  destruct (outcome m) as [[a | e] | ]; auto.
Qed.

(** A secondary ray inherits what holds of the engine on the objects of
    the scene: a hit always comes with its point, so the block itself
    throws nothing. *)
Lemma secondaryRay_sat (E : event -> Prop) (P : Color.t -> Prop)
    (X : exn -> Prop) (N : Prop)
    (shade : Material.t -> Vec3 -> Vec3 -> Vec3 -> option Primitive
             -> run Color.t)
    (dir point : Vec3) (objects : list Primitive) :
  (forall o n v p, In o objects ->
                   sat E P X N (shade (Object.material o) n v p (Some o))) ->
  sat E (fun r => match r with Some c => P c | None => True end) X N
    (secondaryRay shade dir point objects).
Proof.
  intros Hshade. unfold secondaryRay. cbv zeta.
  destruct (Intersection.object
              (findClosestIntersection
                 (mkRay (add point (scale dir 0.001)) dir) objects))
    as [o | ] eqn:Ho.
  - destruct (findClosestIntersection_hit _ _ _ Ho) as [Hin [p Hp]].
    rewrite Hp.
    apply sat_bind with (Q := fun _ => True).
    { apply sat_lift. destruct o; simpl; exact I. }
    intros n _.
    apply sat_bind with (Q := fun _ => True).
    { apply sat_lift. simpl. exact I. }
    intros p' _.
    apply sat_bind with (Q := P).
    { apply Hshade. exact Hin. }
    intros c Hc. apply sat_ret. exact Hc.
  - apply sat_ret. exact I.
Qed.

(** ** Colours stay non-negative *)

Lemma nonneg_calculateDiffuse (material : Material.t) (light : Light.t)
    (normal lightDir : Vec3) :
  nonneg_material material -> nonneg_light light ->
  nonneg (calculateDiffuse material light normal lightDir).
Proof.
  intros (_ & (Hr & Hg & Hb) & _) (_ & (Lr & Lg & Lb) & _).
  pose proof (Rmax_r (dot normal lightDir) 0) as Hd.
  unfold calculateDiffuse, nonneg. simpl.
  repeat split; repeat apply Rmult_le_pos; assumption.
Qed.

Lemma nonneg_calculateSpecular (material : Material.t) (light : Light.t)
    (normal lightDir viewDir : Vec3) :
  nonneg_material material -> nonneg_light light ->
  nonneg (calculateSpecular material light normal lightDir viewDir).
Proof.
  intros (_ & _ & (Hr & Hg & Hb)) (_ & _ & (Lr & Lg & Lb)).
  unfold calculateSpecular, nonneg. cbv zeta. simpl.
  match goal with
  | |- context [Math_pow ?x ?y] =>
      assert (Hs : 0 <= Math_pow x y)
        by (apply Math_pow_nonneg; apply Rmax_r)
  end.
  repeat split; repeat apply Rmult_le_pos; assumption.
Qed.

Lemma nonneg_glassHighlights (material : Material.t)
    (lights : list Light.t) (normal viewDir point : Vec3)
    (finalColor : Color.t) :
  nonneg_material material -> Forall nonneg_light lights ->
  nonneg finalColor ->
  nonneg (glassHighlights material lights normal viewDir point finalColor).
Proof.
  intros Hm Hl. unfold glassHighlights. revert finalColor.
  induction Hl as [ | light lights Hlight _ IH ]; intros finalColor Hc;
    cbn [fold_left]; [ exact Hc | ].
  apply IH.
  pose proof (nonneg_calculateSpecular material light normal
                (normalize (subtract (Light.position light) point)) viewDir
                Hm Hlight) as (Sr & Sg & Sb).
  destruct Hc as (Cr & Cg & Cb). unfold nonneg.
  cbn [Color.r Color.g Color.b]. repeat split; lra.
Qed.

Lemma nonneg_directLighting (material : Material.t) (lights : list Light.t)
    (normal viewDir point : Vec3) (objects : list Primitive)
    (currentObject : option Primitive) (finalColor : Color.t) :
  nonneg_material material -> Forall nonneg_light lights ->
  nonneg finalColor ->
  nonneg (directLighting material lights normal viewDir point objects
            currentObject finalColor).
Proof.
  intros Hm Hl. unfold directLighting. revert finalColor.
  induction Hl as [ | light lights Hlight _ IH ]; intros finalColor Hc;
    cbn [fold_left]; [ exact Hc | ].
  apply IH.
  destruct (isInShadow point (Light.position light) objects currentObject);
    [ exact Hc | ].
  pose proof (nonneg_calculateSpecular material light normal
                (normalize (subtract (Light.position light) point)) viewDir
                Hm Hlight) as (Sr & Sg & Sb).
  pose proof (nonneg_calculateDiffuse material light normal
                (normalize (subtract (Light.position light) point))
                Hm Hlight) as (Dr & Dg & Db).
  destruct Hc as (Cr & Cg & Cb). unfold nonneg.
  cbn [Color.r Color.g Color.b]. repeat split; lra.
Qed.

Lemma nonneg_blend (base color : Color.t) (weight : R) :
  nonneg base -> in_unit_range color -> 0 <= weight ->
  nonneg (Color.rgb (Color.r base + Color.r color * weight)
                    (Color.g base + Color.g color * weight)
                    (Color.b base + Color.b color * weight)).
Proof.
  intros (Br & Bg & Bb) (Cr & Cg & Cb) Hw. unfold nonneg. simpl.
  repeat split; nra.
Qed.

Lemma in_unit_range_clamp (c : Color.t) :
  nonneg c ->
  in_unit_range (Color.rgb (Rmin (Color.r c) 1) (Rmin (Color.g c) 1)
                           (Rmin (Color.b c) 1)).
Proof.
  intros (Hr & Hg & Hb). unfold in_unit_range. simpl.
  repeat split; first [ apply Rmin_glb; lra | apply Rmin_r ].
Qed.

(** ** The shading engine *)

Lemma refract_throws_only (incident normal : Vec3) (ior : R) (e : exn) :
  refract incident normal ior = Throw e -> e = const_assignment.
Proof.
  unfold refract. cbv zeta.
  destruct (_ <? 0); [ intros H; inversion H; reflexivity | ].
  destruct (_ <? 0); discriminate.
Qed.

Lemma in_unit_range_black : in_unit_range (Color.rgb 0 0 0).
Proof. unfold in_unit_range. simpl. lra. Qed.

Lemma in_unit_range_backgroundColor : in_unit_range backgroundColor.
Proof. unfold in_unit_range, backgroundColor. simpl. lra. Qed.

(** The invariant of the engine.  For a call at [depth] inside a trace
    entered at [d0]: every event is as [event_ok] says; a colour that is
    returned lies in [0,1] when the colours of the materials and lights
    are not negative; the only exception, once there is a light, is the
    one of [refract]; and the fuel runs out only if it was at most
    [MAX_DEPTH + 1 - depth]. *)
Lemma calculatePhongLighting_fuel_sat (fuel : nat) :
  forall (material : Material.t) (lights : list Light.t)
         (normal viewDir point : Vec3) (objects : list Primitive)
         (currentObject : option Primitive) (depth d0 : nat),
    (d0 <= depth <= Nat.max d0 (MAX_DEPTH + 1))%nat ->
    sat (event_ok d0)
      (fun c => nonneg_material material -> scene_nonneg objects lights ->
                in_unit_range c)
      (fun e => lights <> [] -> e = const_assignment)
      (fuel <= MAX_DEPTH + 1 - depth)%nat
      (calculatePhongLighting_fuel fuel material lights normal viewDir point
         objects currentObject depth).
Proof.
  induction fuel as [ | fuel IH ];
    intros material lights normal viewDir point objects currentObject depth
      d0 Hdepth.
  { apply sat_exhausted. lia. }
  cbn [calculatePhongLighting_fuel]. unfold calculatePhongLighting_body.
  cbv zeta.
  apply sat_bind with (Q := fun _ => True).
  { apply sat_tell. exact Hdepth. }
  intros _ _.
  destruct (MAX_DEPTH <? depth)%nat eqn:Hcut.
  { apply sat_ret. intros _ _. exact in_unit_range_black. }
  apply Nat.ltb_ge in Hcut.
  apply sat_bind with (Q := fun l => In l lights).
  { apply sat_lift. destruct lights as [ | l ls ]; simpl.
    - intros H. contradiction H. reflexivity.
    - left. reflexivity. }
  intros light0 Hlight0.
  assert (Hshade : forall o n v p, In o objects ->
            sat (event_ok d0)
              (fun c => scene_nonneg objects lights -> in_unit_range c)
              (fun e => lights <> [] -> e = const_assignment)
              (S fuel <= MAX_DEPTH + 1 - depth)%nat
              ((fun material normal viewDir point currentObject =>
                  calculatePhongLighting_fuel fuel material lights normal
                    viewDir point objects currentObject (depth + 1))
                 (Object.material o) n v p (Some o))).
  { intros o n v p Ho. cbv beta.
    apply sat_weaken_exhausted with (N := (fuel <= MAX_DEPTH + 1 - (depth + 1))%nat);
      [ unfold MAX_DEPTH in *; lia | ].
    eapply sat_weaken; [ | apply IH; unfold MAX_DEPTH in *; lia ].
    cbv beta. intros c Hc Hscene. apply Hc; [ | exact Hscene ].
    destruct Hscene as [Hobjects _].
    rewrite Forall_forall in Hobjects. apply (Hobjects o Ho). }
  set (W := nonneg_material material /\ scene_nonneg objects lights).
  assert (Hambient : W -> nonneg (Color.rgb
      (Color.r (Material.ambient material) * Color.r (Light.ambient light0))
      (Color.g (Material.ambient material) * Color.g (Light.ambient light0))
      (Color.b (Material.ambient material) * Color.b (Light.ambient light0)))).
  { intros [((Ar & Ag & Ab) & _) [_ Hlights]].
    rewrite Forall_forall in Hlights.
    destruct (Hlights light0 Hlight0) as ((Lr & Lg & Lb) & _).
    unfold nonneg. simpl. repeat split; apply Rmult_le_pos; assumption. }
  apply sat_bind with (Q := fun c => W -> nonneg c).
  2:{ intros c Hc. apply sat_ret. intros Hm Hs.
      apply in_unit_range_clamp. apply Hc. split; assumption. }
  destruct (Material.isRefractive material
            && (0 <? Material.transparency material)) eqn:Hbranch.
  - apply andb_true_iff in Hbranch. destruct Hbranch as [Hrefr Htransp].
    apply Rltb_true in Htransp.
    apply sat_bind with (Q := fun c => W -> nonneg c).
    { destruct (0 <? fresnelReflectivity material viewDir normal) eqn:Hf.
      - apply Rltb_true in Hf.
        eapply sat_bind; [ apply secondaryRay_sat; exact Hshade | ].
        intros [reflectionColor | ] Hc; apply sat_ret; [ | exact Hambient ].
        intros HW. apply nonneg_blend; [ apply Hambient; exact HW | | lra ].
        apply Hc. apply HW.
      - apply sat_ret. exact Hambient. }
    intros finalColor HfinalColor.
    apply sat_bind with (Q := fun c => W -> nonneg c).
    { destruct (0 <? refractFactor material viewDir normal) eqn:Hf.
      - apply Rltb_true in Hf.
        apply sat_bind with (Q := fun _ => True).
        { apply sat_tell. split; assumption. }
        intros _ _.
        apply sat_bind with (Q := fun _ => True).
        { apply sat_lift.
          destruct (refract (scale viewDir (-1)) normal
                      (Material.ior material)) as [d | e] eqn:Hr;
            [ exact I | ].
          intros _. apply (refract_throws_only _ _ _ _ Hr). }
        intros refractDir _.
        eapply sat_bind; [ apply secondaryRay_sat; exact Hshade | ].
        intros refraction Hc. apply sat_ret. intros HW.
        assert (Hcolor : in_unit_range
                  match refraction with
                  | Some refractionColor => refractionColor
                  | None => backgroundColor
                  end).
        { destruct refraction;
            [ apply Hc; apply HW | exact in_unit_range_backgroundColor ]. }
        destruct (HfinalColor HW) as (Fr & Fg & Fb).
        destruct Hcolor as (Cr & Cg & Cb).
        unfold nonneg. cbn [Color.r Color.g Color.b].
        repeat split;
          (apply Rplus_le_le_0_compat;
           [ assumption | repeat apply Rmult_le_pos; lra ]).
      - apply sat_ret. exact HfinalColor. }
    intros finalColor' HfinalColor'. apply sat_ret. intros HW.
    apply nonneg_glassHighlights;
      [ apply HW | apply HW | apply HfinalColor'; exact HW ].
  - assert (Hdirect : W -> nonneg
              (directLighting material lights normal viewDir point objects
                 currentObject
                 (Color.rgb
                    (Color.r (Material.ambient material)
                     * Color.r (Light.ambient light0))
                    (Color.g (Material.ambient material)
                     * Color.g (Light.ambient light0))
                    (Color.b (Material.ambient material)
                     * Color.b (Light.ambient light0))))).
    { intros HW. apply nonneg_directLighting;
        [ apply HW | apply HW | apply Hambient; exact HW ]. }
    destruct ((0 <? Material.reflectivity material)
              && (depth <? MAX_DEPTH)%nat) eqn:Hrefl.
    + apply andb_true_iff in Hrefl. destruct Hrefl as [Hrefl _].
      apply Rltb_true in Hrefl.
      eapply sat_bind; [ apply secondaryRay_sat; exact Hshade | ].
      intros [reflectionColor | ] Hc; apply sat_ret; [ | exact Hdirect ].
      intros HW. apply nonneg_blend; [ apply Hdirect; exact HW | | lra ].
      apply Hc. apply HW.
    + apply sat_ret. exact Hdirect.
Qed.

(** ** Enough fuel *)

Lemma secondaryRay_ext
    (shade shade' : Material.t -> Vec3 -> Vec3 -> Vec3 -> option Primitive
                    -> run Color.t)
    (dir point : Vec3) (objects : list Primitive) :
  (forall m n v p c, shade m n v p c = shade' m n v p c) ->
  secondaryRay shade dir point objects
  = secondaryRay shade' dir point objects.
Proof.
  intros H. unfold secondaryRay. cbv zeta.
  destruct (Intersection.object _) as [o | ]; [ | reflexivity ].
  destruct (getNormal o _) as [n | e]; [ | reflexivity ].
  destruct (vector _) as [p | e]; [ | reflexivity ].
  unfold bind, lift. simpl. rewrite H. reflexivity.
Qed.

Lemma bind_cong {A B : Type} (m m' : run A) (f g : A -> run B) :
  m = m' -> (forall a, f a = g a) -> bind m f = bind m' g.
Proof.
  intros <- H. unfold bind.
  destruct (outcome m) as [[a | e] | ]; [ rewrite H | | ]; reflexivity.
Qed.

(** The body looks at [self] only below the cutoff. *)
Lemma calculatePhongLighting_body_ext
    (self self' : Material.t -> list Light.t -> Vec3 -> Vec3 -> Vec3
                  -> list Primitive -> option Primitive -> nat
                  -> run Color.t)
    (material : Material.t) (lights : list Light.t)
    (normal viewDir point : Vec3) (objects : list Primitive)
    (currentObject : option Primitive) (depth : nat) :
  ((depth <= MAX_DEPTH)%nat ->
   forall m n v p c,
     self m lights n v p objects c (depth + 1)%nat
     = self' m lights n v p objects c (depth + 1)%nat) ->
  calculatePhongLighting_body self material lights normal viewDir point
    objects currentObject depth
  = calculatePhongLighting_body self' material lights normal viewDir point
      objects currentObject depth.
Proof.
  intros H. unfold calculatePhongLighting_body. cbv zeta.
  destruct (MAX_DEPTH <? depth)%nat eqn:Hcut; [ reflexivity | ].
  apply Nat.ltb_ge in Hcut. specialize (H Hcut).
  assert (Hray : forall dir,
    secondaryRay
      (fun m n v p c => self m lights n v p objects c (depth + 1)%nat)
      dir point objects
    = secondaryRay
        (fun m n v p c => self' m lights n v p objects c (depth + 1)%nat)
        dir point objects).
  { intros dir. apply secondaryRay_ext. exact H. }
  repeat match goal with
         | |- ?x = ?x => reflexivity
         | |- bind _ _ = bind _ _ => apply bind_cong; [ | intros ? ]
         | |- (if ?b then _ else _) = (if ?b then _ else _) => destruct b
         | |- secondaryRay _ _ _ _ = secondaryRay _ _ _ _ => apply Hray
         end.
Qed.

Lemma calculatePhongLighting_fuel_S (fuel : nat) (material : Material.t)
    (lights : list Light.t) (normal viewDir point : Vec3)
    (objects : list Primitive) (currentObject : option Primitive)
    (depth : nat) :
  calculatePhongLighting_fuel (S fuel) material lights normal viewDir point
    objects currentObject depth
  = calculatePhongLighting_body (calculatePhongLighting_fuel fuel) material
      lights normal viewDir point objects currentObject depth.
Proof. reflexivity. Qed.

(** Once the fuel covers the levels down to the cutoff, more fuel changes
    nothing. *)
Lemma calculatePhongLighting_fuel_more (fuel : nat) :
  forall (material : Material.t) (lights : list Light.t)
         (normal viewDir point : Vec3) (objects : list Primitive)
         (currentObject : option Primitive) (depth : nat),
    (1 <= fuel)%nat -> (MAX_DEPTH + 2 <= fuel + depth)%nat ->
    calculatePhongLighting_fuel (S fuel) material lights normal viewDir
      point objects currentObject depth
    = calculatePhongLighting_fuel fuel material lights normal viewDir point
        objects currentObject depth.
Proof.
  induction fuel as [ | fuel IH ];
    intros material lights normal viewDir point objects currentObject depth
      Hfuel Hdepth; [ lia | ].
  rewrite (calculatePhongLighting_fuel_S (S fuel)).
  rewrite (calculatePhongLighting_fuel_S fuel).
  apply calculatePhongLighting_body_ext.
  intros Hcut m n v p c. apply IH; unfold MAX_DEPTH in *; lia.
Qed.

Lemma calculatePhongLighting_fuel_enough (fuel : nat)
    (material : Material.t) (lights : list Light.t)
    (normal viewDir point : Vec3) (objects : list Primitive)
    (currentObject : option Primitive) (depth : nat) :
  (MAX_DEPTH + 2 - depth <= fuel)%nat -> (1 <= fuel)%nat ->
  calculatePhongLighting_fuel fuel material lights normal viewDir point
    objects currentObject depth
  = calculatePhongLighting material lights normal viewDir point objects
      currentObject depth.
Proof.
  unfold calculatePhongLighting. intros Hfuel Hone.
  induction fuel as [ | fuel IH ]; [ lia | ].
  destruct (Nat.eq_dec (S fuel) (S (MAX_DEPTH + 1 - depth))) as [-> | Hne];
    [ reflexivity | ].
  rewrite calculatePhongLighting_fuel_more by (unfold MAX_DEPTH in *; lia).
  apply IH; unfold MAX_DEPTH in *; lia.
Qed.

(** The invariant, for the engine itself. *)
Lemma calculatePhongLighting_sat (material : Material.t)
    (lights : list Light.t) (normal viewDir point : Vec3)
    (objects : list Primitive) (currentObject : option Primitive)
    (depth : nat) :
  sat (event_ok depth)
    (fun c => nonneg_material material -> scene_nonneg objects lights ->
              in_unit_range c)
    (fun e => lights <> [] -> e = const_assignment)
    False
    (calculatePhongLighting material lights normal viewDir point objects
       currentObject depth).
Proof.
  unfold calculatePhongLighting.
  eapply sat_weaken_exhausted;
    [ | apply calculatePhongLighting_fuel_sat; lia ].
  lia.
Qed.

(** C3: a call with [depth > 5] returns black at once, without any further
    call.  A trace entered at depth 0 ends for every scene, with whatever
    fuel from [MAX_DEPTH + 2] on, and all its calls are at depths up to
    [MAX_DEPTH + 1]: those at depths 0 to 5 shade, those at depth 6 are
    cut off. *)
Theorem C3_depth_cutoff_bounds_recursion (material : Material.t)
    (lights : list Light.t) (normal viewDir point : Vec3)
    (objects : list Primitive) (currentObject : option Primitive) :
  (forall depth, (MAX_DEPTH < depth)%nat ->
     calculatePhongLighting material lights normal viewDir point objects
       currentObject depth
     = mkRun [Call depth material] (Some (Ok (Color.rgb 0 0 0))))
  /\ outcome (calculatePhongLighting material lights normal viewDir point
                objects currentObject 0) <> None
  /\ (forall fuel, (MAX_DEPTH + 2 <= fuel)%nat ->
        calculatePhongLighting_fuel fuel material lights normal viewDir
          point objects currentObject 0
        = calculatePhongLighting material lights normal viewDir point
            objects currentObject 0)
  /\ Forall (fun e => match e with
                      | Call d _ => (d <= MAX_DEPTH + 1)%nat
                      | Refract _ => True
                      end)
       (log (calculatePhongLighting material lights normal viewDir point
               objects currentObject 0)).
Proof.
  repeat split.
  - intros depth Hdepth. unfold calculatePhongLighting.
    cbn [calculatePhongLighting_fuel]. unfold calculatePhongLighting_body.
    cbv zeta. apply Nat.ltb_lt in Hdepth. unfold bind, tell. simpl.
    rewrite Hdepth. reflexivity.
  - destruct (calculatePhongLighting_sat material lights normal viewDir
                point objects currentObject 0) as [_ H].
    intros E. rewrite E in H. exact H.
  - intros fuel Hfuel. apply calculatePhongLighting_fuel_enough; lia.
  - destruct (calculatePhongLighting_sat material lights normal viewDir
                point objects currentObject 0) as [H _].
    eapply Forall_impl; [ | exact H ].
    intros [d m | m]; simpl; [ lia | trivial ].
Qed.

Lemma C3_depth_cutoff_bounds_recursion_witness :
  (MAX_DEPTH < 6)%nat
  /\ calculatePhongLighting redMaterial lights unit_z unit_z shadedPoint
       objects None 6
     = mkRun [Call 6 redMaterial] (Some (Ok (Color.rgb 0 0 0))).
Proof.
  assert (H : (MAX_DEPTH < 6)%nat) by (unfold MAX_DEPTH; lia).
  split; [ exact H | ].
  apply (proj1 (C3_depth_cutoff_bounds_recursion redMaterial lights unit_z
                  unit_z shadedPoint objects None)).
  exact H.
Defined.

Lemma well_formed_scene_nonneg (objects : list Primitive)
    (lights : list Light.t) :
  well_formed_scene objects lights -> scene_nonneg objects lights.
Proof.
  intros [Hobjects Hlights]. split; [ | exact Hlights ].
  eapply Forall_impl; [ | exact Hobjects ].
  intros o Ho. apply Ho.
Qed.

(** In the range of a colour that is returned, only the signs of the
    colour components matter. *)
Lemma calculatePhongLighting_in_unit_range (material : Material.t)
    (lights : list Light.t) (normal viewDir point : Vec3)
    (objects : list Primitive) (currentObject : option Primitive)
    (depth : nat) :
  lights <> [] ->
  nonneg_material material ->
  scene_nonneg objects lights ->
  match outcome (calculatePhongLighting material lights normal viewDir
                   point objects currentObject depth) with
  | Some (Ok color) => in_unit_range color
  | Some (Throw e) => e = const_assignment
  | None => False
  end.
Proof.
  intros Hlights Hmaterial Hscene.
  destruct (calculatePhongLighting_sat material lights normal viewDir point
              objects currentObject depth) as [_ H].
  destruct (outcome _) as [[color | e] | ]; auto.
Qed.

(** C4: with at least one light, well-formed materials, lights without a
    negative colour component and unit [normal] and [viewDir], the engine
    always answers, and every channel of a colour it returns lies in
    [0,1].  The one exception it can raise instead is the [TypeError] of
    [refract]. *)
Theorem C4_channels_in_unit_range (material : Material.t)
    (lights : list Light.t) (normal viewDir point : Vec3)
    (objects : list Primitive) (currentObject : option Primitive)
    (depth : nat) :
  lights <> [] ->
  well_formed_material material ->
  well_formed_scene objects lights ->
  length normal = 1 ->
  length viewDir = 1 ->
  match outcome (calculatePhongLighting material lights normal viewDir
                   point objects currentObject depth) with
  | Some (Ok color) => in_unit_range color
  | Some (Throw e) => e = const_assignment
  | None => False
  end.
Proof.
  intros Hlights [Hmaterial _] Hscene _ _.
  apply calculatePhongLighting_in_unit_range;
    [ exact Hlights | exact Hmaterial | ].
  apply well_formed_scene_nonneg. exact Hscene.
Qed.

Lemma well_formed_init_scene :
  lights <> [] /\ well_formed_material redMaterial
  /\ well_formed_scene objects lights.
Proof.
  split; [ discriminate | ].
  unfold well_formed_scene, well_formed_material, nonneg_material,
    nonneg_light, nonneg, objects, lights.
  split; [ simpl; lra | ].
  split; repeat (apply Forall_cons || apply Forall_nil); simpl; lra.
Qed.

Lemma C4_channels_in_unit_range_witness :
  (lights <> [] /\ well_formed_material redMaterial
   /\ well_formed_scene objects lights /\ length unit_z = 1)
  /\ match outcome (calculatePhongLighting redMaterial lights unit_z unit_z
                      shadedPoint objects None 0) with
     | Some (Ok color) => in_unit_range color
     | Some (Throw e) => e = const_assignment
     | None => False
     end.
Proof.
  pose proof well_formed_init_scene as (Hlights & Hmaterial & Hscene).
  split.
  { split; [ exact Hlights | ]. split; [ exact Hmaterial | ].
    split; [ exact Hscene | exact length_unit_z ]. }
  apply C4_channels_in_unit_range;
    [ exact Hlights | exact Hmaterial | exact Hscene
    | exact length_unit_z | exact length_unit_z ].
Defined.

(** C7: in the whole call tree of the engine, [refract] is called only by
    a frame whose material is refractive and has a positive transparency;
    a material with [isRefractive = false] therefore never has a refraction
    ray computed for it, whatever its transparency. *)
Theorem C7_no_refraction_unless_isRefractive (material : Material.t)
    (lights : list Light.t) (normal viewDir point : Vec3)
    (objects : list Primitive) (currentObject : option Primitive)
    (depth fuel : nat) (m : Material.t) :
  Material.isRefractive m = false ->
  ~ In (Refract m)
      (log (calculatePhongLighting material lights normal viewDir point
              objects currentObject depth))
  /\ ~ In (Refract m)
         (log (calculatePhongLighting_fuel fuel material lights normal
                 viewDir point objects currentObject depth)).
Proof.
  intros Hm. split; intros Hin.
  - destruct (calculatePhongLighting_sat material lights normal viewDir
                point objects currentObject depth) as [H _].
    rewrite Forall_forall in H. destruct (H _ Hin) as [Hr _]. congruence.
  - destruct (calculatePhongLighting_fuel_sat fuel material lights normal
                viewDir point objects currentObject depth depth) as [H _];
      [ lia | ].
    rewrite Forall_forall in H. destruct (H _ Hin) as [Hr _]. congruence.
Qed.

Lemma C7_no_refraction_unless_isRefractive_witness :
  Material.isRefractive redMaterial = false
  /\ ~ In (Refract redMaterial)
         (log (calculatePhongLighting redMaterial lights unit_z unit_z
                 shadedPoint objects None 0))
  /\ ~ In (Refract redMaterial)
         (log (calculatePhongLighting_fuel 3 redMaterial lights unit_z
                 unit_z shadedPoint objects None 0)).
Proof.
  split; [ reflexivity | ].
  apply C7_no_refraction_unless_isRefractive. reflexivity.
Defined.

(** ** The definitions at work *)

Example intersectRaySphere_head_on :
  intersectRaySphere cameraRay redSphere = 4.
Proof.
  unfold intersectRaySphere, cameraRay, down, redSphere, dot, subtract.
  simpl. sqrt_is 2. eval_cmp. lra.
Qed.

Example findClosestIntersection_head_on :
  findClosestIntersection cameraRay [ASphere redSphere]
  = Intersection.mk (Finite 4) (Some (ASphere redSphere))
      (Some (mkVec3 0 0 (-4))).
Proof.
  unfold findClosestIntersection. cbn [fold_left]. unfold closer.
  cbn [intersect]. rewrite intersectRaySphere_head_on. cbv zeta.
  cbn [Intersection.t noIntersection lt_number]. eval_cmp. cbn [andb].
  f_equal. f_equal.
  unfold getIntersectionPoint, Sphere.getIntersectionPoint, add, scale,
    cameraRay, down.
  simpl. f_equal; lra.
Qed.

(** A ray that points away from the sphere gets the sentinel. *)
Example findClosestIntersection_miss :
  findClosestIntersection (mkRay (mkVec3 0 0 0) unit_z) [ASphere redSphere]
  = noIntersection.
Proof.
  unfold findClosestIntersection. cbn [fold_left]. unfold closer.
  assert (E : intersect (mkRay (mkVec3 0 0 0) unit_z) (ASphere redSphere)
              = -6).
  { unfold intersect, intersectRaySphere, unit_z, redSphere, dot, subtract.
    simpl. sqrt_is 2. eval_cmp. lra. }
  rewrite E. cbv zeta. eval_cmp. reflexivity.
Qed.

(** A ray entering along the normal is not bent. *)
Example refract_head_on : refract down unit_z 1.5 = Ok down.
Proof.
  unfold refract, dot, unit_z, down. simpl.
  replace (0 * 0 + 0 * 0 + -1 * 1) with (-1) by lra.
  eval_cmp.
  replace (1 - 1 / 1.5 * (1 / 1.5) * (1 - - -1 * - -1)) with (1 * 1) by lra.
  eval_cmp. rewrite sqrt_square by lra.
  unfold add, scale. simpl. f_equal. f_equal; lra.
Qed.

Lemma Math_pow_1 (y : R) : Math_pow 1 y = 1.
Proof.
  unfold Math_pow. destruct (Req_dec_T y (IZR (Int_part y))).
  - destruct (Int_part y); simpl; rewrite ?pow1, ?Rinv_1; reflexivity.
  - destruct (Rlt_dec 0 1); [ | lra ].
    unfold Rpower. rewrite ln_1, Rmult_0_r. apply exp_0.
Qed.

(** An opaque red surface facing the lamp, alone in the scene: ambient,
    diffuse and specular terms add up to (0.81, 0.3, 0.3), and the
    reflection ray hits nothing. *)
Lemma shade_lit_point_body
    (self : Material.t -> list Light.t -> Vec3 -> Vec3 -> Vec3
            -> list Primitive -> option Primitive -> nat -> run Color.t) :
  calculatePhongLighting_body self redMaterial [lamp] unit_z unit_z
    shadedPoint [] None 0
  = mkRun [Call 0 redMaterial] (Some (Ok (Color.rgb 0.81 0.3 0.3))).
Proof.
  unfold calculatePhongLighting_body. cbv zeta.
  replace (MAX_DEPTH <? 0)%nat with false by reflexivity.
  replace (0 <? MAX_DEPTH)%nat with true by reflexivity.
  unfold directLighting, firstLight, lamp. cbn [fold_left Light.position].
  rewrite normalize_lamp.
  replace (isInShadow shadedPoint lampPosition [] None) with false
    by reflexivity.
  unfold secondaryRay, findClosestIntersection.
  cbn [fold_left noIntersection Intersection.object].
  unfold calculateDiffuse, calculateSpecular, reflect. cbv zeta.
  replace (dot unit_z unit_z) with 1 by (symmetry; exact dot_unit_z).
  replace (dot unit_z
             (subtract (scale unit_z (-1))
                (scale unit_z (2 * dot (scale unit_z (-1)) unit_z))))
    with 1 by (unfold dot, subtract, scale, unit_z; simpl; lra).
  eval_cmp. rewrite Math_pow_1.
  unfold bind, tell, lift, ret. simpl. eval_cmp. simpl.
  f_equal. f_equal. f_equal. f_equal; eval_cmp; lra.
Qed.

Example shade_lit_point :
  calculatePhongLighting redMaterial [lamp] unit_z unit_z shadedPoint []
    None 0
  = mkRun [Call 0 redMaterial] (Some (Ok (Color.rgb 0.81 0.3 0.3))).
Proof.
  unfold calculatePhongLighting.
  rewrite calculatePhongLighting_fuel_S. apply shade_lit_point_body.
Qed.

(** A glass surface seen from behind ([viewDir] opposite to the normal):
    the refraction ray leaves the medium, and the exception of [refract]
    ends the engine. *)
Lemma fresnelReflectivity_behind :
  fresnelReflectivity glassMaterial down unit_z = 0.2.
Proof.
  unfold fresnelReflectivity. rewrite Math_pow_5.
  replace (dot down unit_z) with (-1)
    by (unfold dot, down, unit_z; simpl; lra).
  eval_cmp. simpl. lra.
Qed.

Lemma shade_glass_from_behind_body
    (self : Material.t -> list Light.t -> Vec3 -> Vec3 -> Vec3
            -> list Primitive -> option Primitive -> nat -> run Color.t) :
  calculatePhongLighting_body self glassMaterial [lamp] unit_z down
    shadedPoint [] None 0
  = mkRun [Call 0 glassMaterial; Refract glassMaterial]
      (Some (Throw const_assignment)).
Proof.
  unfold calculatePhongLighting_body. cbv zeta.
  replace (MAX_DEPTH <? 0)%nat with false by reflexivity.
  unfold refractFactor. rewrite fresnelReflectivity_behind.
  rewrite refract_exiting
    by (unfold dot, scale, down, unit_z; simpl; lra).
  unfold secondaryRay, findClosestIntersection.
  cbn [fold_left noIntersection Intersection.object].
  replace (Material.isRefractive glassMaterial) with true by reflexivity.
  replace (Material.transparency glassMaterial) with 0.8 by reflexivity.
  eval_cmp. reflexivity.
Qed.

Example shade_glass_from_behind :
  calculatePhongLighting glassMaterial [lamp] unit_z down shadedPoint []
    None 0
  = mkRun [Call 0 glassMaterial; Refract glassMaterial]
      (Some (Throw const_assignment)).
Proof.
  unfold calculatePhongLighting.
  rewrite calculatePhongLighting_fuel_S. apply shade_glass_from_behind_body.
Qed.

(** * Further properties *)

(** ** Vectors *)

Lemma dot_self_nonneg (v : Vec3) : 0 <= dot v v.
Proof. unfold dot. nra. Qed.

Lemma length_sqrt_dot (v : Vec3) : length v = sqrt (dot v v).
Proof. reflexivity. Qed.

Lemma normalize_scale (v : Vec3) :
  0 < dot v v -> normalize v = scale v (1 / length v).
Proof.
  intros H. unfold normalize, scale, length. fold (dot v v).
  rewrite (proj2 (Rltb_true 0 (dot v v))) by exact H. reflexivity.
Qed.

Lemma normalize_unit (v : Vec3) : 0 < dot v v -> length (normalize v) = 1.
Proof.
  intros H. rewrite normalize_scale by exact H.
  rewrite !length_sqrt_dot.
  assert (Hs : 0 < sqrt (dot v v)) by (apply sqrt_lt_R0; exact H).
  assert (Hq : sqrt (dot v v) * sqrt (dot v v) = dot v v)
    by (apply sqrt_sqrt; lra).
  set (s := sqrt (dot v v)) in *.
  replace (dot (scale v (1 / s)) (scale v (1 / s)))
    with (dot v v / (s * s)).
  - rewrite Hq. replace (dot v v / dot v v) with 1 by (field; lra).
    apply sqrt_1.
  - unfold dot, scale. simpl. field. lra.
Qed.

(** X1: [normalize] returns a vector of length 1 for every vector other
    than the zero vector. *)
Theorem X1_normalize_unit (v : Vec3) :
  0 < dot v v -> length (normalize v) = 1.
Proof. exact (normalize_unit v). Qed.

Lemma X1_normalize_unit_witness :
  0 < dot lampPosition lampPosition /\ length (normalize lampPosition) = 1.
Proof.
  assert (H : 0 < dot lampPosition lampPosition)
    by (unfold dot, lampPosition; simpl; lra).
  split; [ exact H | apply X1_normalize_unit; exact H ].
Defined.

(** X2: [normalize] is idempotent, the zero vector included: the zero
    vector is returned as it is, without a division. *)
Theorem X2_normalize_idempotent (v : Vec3) :
  normalize (normalize v) = normalize v
  /\ normalize (mkVec3 0 0 0) = mkVec3 0 0 0.
Proof.
  split.
  - destruct (Rlt_dec 0 (dot v v)) as [H | H].
    + pose proof (normalize_unit v H) as Hu.
      apply length_unit in Hu.
      rewrite (normalize_scale (normalize v)) by lra.
      rewrite !length_sqrt_dot, Hu, sqrt_1.
      destruct (normalize v) as [x y z]. unfold scale. simpl.
      f_equal; field.
    + assert (E : dot v v = 0) by (pose proof (dot_self_nonneg v); lra).
      assert (Hn : normalize v = mkVec3 0 0 0).
      { unfold normalize. fold (dot v v). rewrite E.
        rewrite (proj2 (Rltb_false 0 0)) by lra. f_equal; lra. }
      rewrite Hn. unfold normalize. simpl.
      rewrite (proj2 (Rltb_false _ _)) by lra. f_equal; lra.
  - unfold normalize. simpl.
    rewrite (proj2 (Rltb_false _ _)) by lra. f_equal; lra.
Qed.

Lemma reflect_unit_normal (v n : Vec3) :
  length n = 1 ->
  length (reflect v n) = length v
  /\ dot (reflect v n) n = - dot v n
  /\ reflect (reflect v n) n = v.
Proof.
  intros Hn. apply length_unit in Hn.
  destruct v as [v1 v2 v3], n as [n1 n2 n3].
  unfold reflect, length, dot, subtract, scale in *. simpl in *.
  set (d := v1 * n1 + v2 * n2 + v3 * n3).
  set (nn := n1 * n1 + n2 * n2 + n3 * n3) in *.
  split; [ | split ].
  - f_equal.
    transitivity (v1 * v1 + v2 * v2 + v3 * v3 + 4 * d * d * (nn - 1));
      [ unfold d, nn; ring | rewrite Hn; ring ].
  - transitivity (d - 2 * d * nn); [ unfold d, nn; ring | ].
    rewrite Hn. unfold d. ring.
  - assert (E : (v1 - n1 * (2 * d)) * n1 + (v2 - n2 * (2 * d)) * n2
                + (v3 - n3 * (2 * d)) * n3 = - d).
    { transitivity (d - 2 * d * nn); [ unfold d, nn; ring | ].
      rewrite Hn. ring. }
    rewrite E. f_equal; ring.
Qed.

(** X3: about a unit normal, [reflect] keeps the length of a vector,
    reverses its component along the normal, and undoes itself. *)
Theorem X3_reflect_unit_normal (v n : Vec3) :
  length n = 1 ->
  length (reflect v n) = length v
  /\ dot (reflect v n) n = - dot v n
  /\ reflect (reflect v n) n = v.
Proof. exact (reflect_unit_normal v n). Qed.

Lemma X3_reflect_unit_normal_witness :
  length unit_z = 1
  /\ length (reflect grazing unit_z) = length grazing
  /\ dot (reflect grazing unit_z) unit_z = - dot grazing unit_z
  /\ reflect (reflect grazing unit_z) unit_z = grazing.
Proof.
  split; [ exact length_unit_z | ].
  apply X3_reflect_unit_normal. exact length_unit_z.
Defined.

(** ** [refract], further *)

(** X4: [refract] throws exactly for the rays with a positive component
    along the normal, and returns a vector for all others. *)
Theorem X4_refract_throws_iff (incident normal : Vec3) (ior : R) :
  (refract incident normal ior = Throw const_assignment
   <-> 0 < dot incident normal)
  /\ ((exists t, refract incident normal ior = Ok t)
      <-> dot incident normal <= 0).
Proof.
  destruct (Rlt_dec 0 (dot incident normal)) as [H | H].
  - pose proof (refract_exiting incident normal ior H) as E.
    split; split; intros H'; try assumption.
    + destruct H' as [t Ht]. rewrite E in Ht. discriminate.
    + lra.
  - assert (H' : dot incident normal <= 0) by lra.
    pose proof (refract_entering incident normal ior H') as E.
    cbv zeta in E.
    split; split; intros H''; try assumption.
    + rewrite E in H''. destruct (_ <? 0) in H''; discriminate.
    + lra.
    + rewrite E. destruct (_ <? 0); eauto.
Qed.

Lemma dot_combination (u w : Vec3) (a c : R) :
  dot (add (scale u a) (scale w c)) (add (scale u a) (scale w c))
  = a * a * dot u u + 2 * a * c * dot u w + c * c * dot w w.
Proof. unfold dot, add, scale. simpl. ring. Qed.

Lemma dot_combination_r (u w : Vec3) (a c : R) :
  dot (add (scale u a) (scale w c)) w = a * dot u w + c * dot w w.
Proof. unfold dot, add, scale. simpl. ring. Qed.

Lemma Rabs_le_bounds (x c : R) : Rabs x <= c -> - c <= x <= c.
Proof. unfold Rabs. destruct (Rcase_abs x); lra. Qed.

(** For unit vectors the clamp of [refract] changes nothing. *)
Lemma clamp_unit (incident normal : Vec3) :
  length incident = 1 -> length normal = 1 ->
  Rmin (Rmax (dot incident normal) (-1)) 1 = dot incident normal.
Proof.
  intros Hi Hn. pose proof (dot_unit_bound incident normal Hi Hn) as H.
  apply Rabs_le_bounds in H.
  rewrite Rmax_left by lra. rewrite Rmin_left by lra. reflexivity.
Qed.

Lemma refract_entering_unit (incident normal : Vec3) (ior : R) :
  length incident = 1 -> length normal = 1 ->
  dot incident normal <= 0 ->
  exists t, refract incident normal ior = Ok t /\ length t = 1.
Proof.
  intros Hi Hn Hd. rewrite refract_entering by exact Hd. cbv zeta.
  rewrite clamp_unit by assumption.
  set (d := dot incident normal) in *. set (eta := 1 / ior).
  set (k := 1 - eta * eta * (1 - - d * - d)).
  destruct (k <? 0) eqn:Hk.
  - eexists. split; [ reflexivity | ].
    destruct (reflect_unit_normal incident normal Hn) as [E _].
    rewrite E. exact Hi.
  - apply Rltb_false in Hk. eexists. split; [ reflexivity | ].
    rewrite length_sqrt_dot, dot_combination.
    apply length_unit in Hi. apply length_unit in Hn. rewrite Hi, Hn.
    fold d. pose proof (sqrt_sqrt k Hk) as Hs.
    set (s := sqrt k) in *.
    replace (eta * eta * 1 + 2 * eta * (eta * - d - s) * d
             + (eta * - d - s) * (eta * - d - s) * 1)
      with (eta * eta * (1 - - d * - d) + s * s) by ring.
    rewrite Hs. unfold k.
    replace (eta * eta * (1 - - d * - d)
             + (1 - eta * eta * (1 - - d * - d))) with 1 by ring.
    apply sqrt_1.
Qed.

(** X5: for a unit ray that enters through a unit normal, and an index
    other than 0 (which would be divided by), [refract] returns a unit
    vector, in the refracted case as well as in the case of total internal
    reflection. *)
Theorem X5_refract_entering_unit (incident normal : Vec3) (ior : R) :
  ior <> 0 ->
  length incident = 1 -> length normal = 1 ->
  dot incident normal <= 0 ->
  exists t, refract incident normal ior = Ok t /\ length t = 1.
Proof. intros _. exact (refract_entering_unit incident normal ior). Qed.

Lemma length_down : length down = 1.
Proof. unfold length, down. simpl. sqrt_is 1. reflexivity. Qed.

Lemma dot_down : dot down unit_z = -1.
Proof. unfold dot, down, unit_z. simpl. lra. Qed.

Lemma X5_refract_entering_unit_witness :
  (1.5 <> 0 /\ length down = 1 /\ length unit_z = 1
   /\ dot down unit_z <= 0)
  /\ exists t, refract down unit_z 1.5 = Ok t /\ length t = 1.
Proof.
  assert (H : dot down unit_z <= 0) by (rewrite dot_down; lra).
  assert (I : 1.5 <> 0) by lra.
  split.
  { split; [ exact I | ]. split; [ exact length_down | ].
    split; [ exact length_unit_z | exact H ]. }
  apply X5_refract_entering_unit;
    [ exact I | exact length_down | exact length_unit_z | exact H ].
Defined.

(** X6: Snell's law.  When a unit ray enters through a unit normal and is
    not totally reflected, the vector [t] that [refract] returns has the
    component [- sqrt k] along the normal, and its part across the normal
    is the part of the incident ray across the normal, scaled by
    [eta = 1 / ior] (for an index other than 0). *)
Theorem X6_refract_snell (incident normal : Vec3) (ior : R) :
  ior <> 0 ->
  length incident = 1 -> length normal = 1 ->
  dot incident normal <= 0 ->
  0 <= 1 - 1 / ior * (1 / ior)
           * (1 - dot incident normal * dot incident normal) ->
  exists t,
    refract incident normal ior = Ok t
    /\ dot t normal
       = - sqrt (1 - 1 / ior * (1 / ior)
                     * (1 - dot incident normal * dot incident normal))
    /\ subtract t (scale normal (dot t normal))
       = scale (subtract incident (scale normal (dot incident normal)))
           (1 / ior).
Proof.
  intros _ Hi Hn Hd Hk. rewrite refract_entering by exact Hd. cbv zeta.
  rewrite clamp_unit by assumption.
  set (d := dot incident normal) in *. set (eta := 1 / ior) in *.
  replace (1 - eta * eta * (1 - - d * - d))
    with (1 - eta * eta * (1 - d * d)) by ring.
  set (k := 1 - eta * eta * (1 - d * d)) in *.
  rewrite (proj2 (Rltb_false k 0)) by exact Hk.
  eexists. split; [ reflexivity | ].
  assert (E : dot (add (scale incident eta)
                     (scale normal (eta * - d - sqrt k))) normal
              = - sqrt k).
  { rewrite dot_combination_r. apply length_unit in Hn. rewrite Hn.
    fold d. ring. }
  split; [ exact E | ].
  rewrite E. subst d.
  destruct incident as [i1 i2 i3], normal as [n1 n2 n3].
  unfold subtract, add, scale. simpl. f_equal; ring.
Qed.

Lemma X6_refract_snell_witness :
  (1.5 <> 0 /\ length down = 1 /\ length unit_z = 1
   /\ dot down unit_z <= 0
   /\ 0 <= 1 - 1 / 1.5 * (1 / 1.5)
             * (1 - dot down unit_z * dot down unit_z))
  /\ exists t,
       refract down unit_z 1.5 = Ok t
       /\ dot t unit_z
          = - sqrt (1 - 1 / 1.5 * (1 / 1.5)
                        * (1 - dot down unit_z * dot down unit_z))
       /\ subtract t (scale unit_z (dot t unit_z))
          = scale (subtract down (scale unit_z (dot down unit_z)))
              (1 / 1.5).
Proof.
  assert (H : dot down unit_z <= 0) by (rewrite dot_down; lra).
  assert (K : 0 <= 1 - 1 / 1.5 * (1 / 1.5)
                     * (1 - dot down unit_z * dot down unit_z))
    by (rewrite dot_down; lra).
  assert (I : 1.5 <> 0) by lra.
  split.
  { split; [ exact I | ]. split; [ exact length_down | ].
    split; [ exact length_unit_z | ]. split; [ exact H | exact K ]. }
  apply X6_refract_snell;
    [ exact I | exact length_down | exact length_unit_z | exact H
    | exact K ].
Defined.

(** ** Spheres and planes *)

(** The squared distance from the centre along a ray is the quadratic
    that [intersectRaySphere] solves. *)
Lemma on_sphere_quadratic (ray : Ray) (s : Sphere.t) (t : R) :
  let oc := subtract (origin ray) (Sphere.center s) in
  let a := dot (direction ray) (direction ray) in
  let b := 2 * dot oc (direction ray) in
  let c := dot oc oc - Sphere.radius s * Sphere.radius s in
  on_sphere s (pointAt ray t) <-> a * t * t + b * t + c = 0.
Proof.
  cbv zeta. unfold on_sphere, pointAt.
  destruct ray as [[o1 o2 o3] [d1 d2 d3]].
  destruct s as [i [c1 c2 c3] r m].
  unfold dot, subtract, add, scale. simpl.
  split; intros H; nra.
Qed.

Lemma intersectRaySphere_roots (ray : Ray) (s : Sphere.t) :
  0 < dot (direction ray) (direction ray) ->
  let t := intersectRaySphere ray s in
  (on_sphere s (pointAt ray t)
   /\ forall t', on_sphere s (pointAt ray t') -> t <= t')
  \/ (t = -1 /\ forall t', ~ on_sphere s (pointAt ray t')).
Proof.
  intros Ha. cbv zeta. unfold intersectRaySphere. cbv zeta.
  set (oc := subtract (origin ray) (Sphere.center s)).
  set (a := dot (direction ray) (direction ray)) in *.
  set (b := 2 * dot oc (direction ray)).
  set (c := dot oc oc - Sphere.radius s * Sphere.radius s).
  assert (Q : forall t, on_sphere s (pointAt ray t)
                        <-> a * t * t + b * t + c = 0)
    by (intros t; apply on_sphere_quadratic).
  clearbody a b c.
  assert (Sq : forall t, (2 * a * t + b) * (2 * a * t + b)
                         = b * b - 4 * a * c
                           + 4 * a * (a * t * t + b * t + c))
    by (intros t; ring).
  destruct (b * b - 4 * a * c <? 0) eqn:Hd.
  - apply Rltb_true in Hd. right. split; [ reflexivity | ].
    intros t' H. apply Q in H. specialize (Sq t'). rewrite H in Sq.
    pose proof (Rle_0_sqr (2 * a * t' + b)) as Hsq. unfold Rsqr in Hsq.
    lra.
  - apply Rltb_false in Hd. left.
    pose proof (sqrt_sqrt _ Hd) as Hs.
    pose proof (sqrt_pos (b * b - 4 * a * c)) as Hp.
    set (q := sqrt (b * b - 4 * a * c)) in *.
    split.
    + apply Q.
      replace (a * ((- b - q) / (2 * a)) * ((- b - q) / (2 * a))
               + b * ((- b - q) / (2 * a)) + c)
        with ((q * q - (b * b - 4 * a * c)) / (4 * a)) by (field; lra).
      rewrite Hs. field. lra.
    + intros t' H. apply Q in H. specialize (Sq t'). rewrite H in Sq.
      assert (E : (2 * a * t' + b) * (2 * a * t' + b) = q * q)
        by (rewrite Hs; lra).
      assert (Hq : - q <= 2 * a * t' + b).
      { destruct (Rle_dec (- q) (2 * a * t' + b)) as [L | L];
          [ exact L | exfalso ].
        assert (0 < - (2 * a * t' + b) - q) by lra.
        assert (0 < - (2 * a * t' + b) + q) by lra.
        assert (0 < (- (2 * a * t' + b) - q) * (- (2 * a * t' + b) + q))
          by (apply Rmult_lt_0_compat; assumption).
        lra. }
      apply Rmult_le_reg_r with (2 * a); [ lra | ].
      replace ((- b - q) / (2 * a) * (2 * a)) with (- b - q)
        by (field; lra).
      lra.
Qed.

(** X7: for a ray with a direction other than the zero vector,
    [intersectRaySphere] returns the parameter of the first point of the
    ray's line on the sphere (the smaller root), or [-1] when the line does
    not meet the sphere at all. *)
Theorem X7_intersectRaySphere_first_point (ray : Ray) (s : Sphere.t) :
  0 < dot (direction ray) (direction ray) ->
  let t := intersectRaySphere ray s in
  (on_sphere s (pointAt ray t)
   /\ forall t', on_sphere s (pointAt ray t') -> t <= t')
  \/ (t = -1 /\ forall t', ~ on_sphere s (pointAt ray t')).
Proof. exact (intersectRaySphere_roots ray s). Qed.

Lemma X7_intersectRaySphere_first_point_witness :
  0 < dot (direction cameraRay) (direction cameraRay)
  /\ let t := intersectRaySphere cameraRay redSphere in
     (on_sphere redSphere (pointAt cameraRay t)
      /\ forall t', on_sphere redSphere (pointAt cameraRay t') -> t <= t')
     \/ (t = -1
         /\ forall t', ~ on_sphere redSphere (pointAt cameraRay t')).
Proof.
  assert (H : 0 < dot (direction cameraRay) (direction cameraRay))
    by (unfold dot, cameraRay, down; simpl; lra).
  split; [ exact H | ].
  apply X7_intersectRaySphere_first_point. exact H.
Defined.

(** X8: a ray that starts strictly inside a sphere gets a negative
    distance, so the resolver does not see the sphere from inside: the far
    root is never used. *)
Theorem X8_sphere_unseen_from_inside (ray : Ray) (s : Sphere.t) :
  0 < dot (direction ray) (direction ray) ->
  dot (subtract (origin ray) (Sphere.center s))
      (subtract (origin ray) (Sphere.center s))
  < Sphere.radius s * Sphere.radius s ->
  intersectRaySphere ray s < 0
  /\ findClosestIntersection ray [ASphere s] = noIntersection.
Proof.
  intros Ha Hin.
  assert (Ht : intersectRaySphere ray s < 0).
  { unfold intersectRaySphere. cbv zeta.
    set (oc := subtract (origin ray) (Sphere.center s)) in *.
    set (a := dot (direction ray) (direction ray)) in *.
    set (b := 2 * dot oc (direction ray)).
    set (c := dot oc oc - Sphere.radius s * Sphere.radius s).
    assert (Hc : c < 0) by (unfold c; lra).
    assert (Hd : b * b < b * b - 4 * a * c) by nra.
    assert (Hd0 : 0 <= b * b - 4 * a * c) by nra.
    rewrite (proj2 (Rltb_false _ 0)) by exact Hd0.
    pose proof (sqrt_sqrt _ Hd0) as Hs.
    pose proof (sqrt_pos (b * b - 4 * a * c)) as Hp.
    set (q := sqrt (b * b - 4 * a * c)) in *.
    assert (Hq : - b < q) by nra.
    apply Rmult_lt_reg_r with (2 * a); [ lra | ].
    replace ((- b - q) / (2 * a) * (2 * a)) with (- b - q) by (field; lra).
    lra. }
  split; [ exact Ht | ].
  unfold findClosestIntersection. cbn [fold_left]. unfold closer.
  cbn [intersect]. cbv zeta.
  rewrite (proj2 (Rltb_false 0.001 _)) by lra. reflexivity.
Qed.

Lemma X8_sphere_unseen_from_inside_witness :
  (0 < dot (direction (mkRay (mkVec3 0 0 (-5)) down))
           (direction (mkRay (mkVec3 0 0 (-5)) down))
   /\ dot (subtract (origin (mkRay (mkVec3 0 0 (-5)) down))
                    (Sphere.center redSphere))
          (subtract (origin (mkRay (mkVec3 0 0 (-5)) down))
                    (Sphere.center redSphere))
      < Sphere.radius redSphere * Sphere.radius redSphere)
  /\ intersectRaySphere (mkRay (mkVec3 0 0 (-5)) down) redSphere < 0
  /\ findClosestIntersection (mkRay (mkVec3 0 0 (-5)) down)
       [ASphere redSphere] = noIntersection.
Proof.
  assert (H1 : 0 < dot (direction (mkRay (mkVec3 0 0 (-5)) down))
                       (direction (mkRay (mkVec3 0 0 (-5)) down)))
    by (unfold dot, down; simpl; lra).
  assert (H2 : dot (subtract (origin (mkRay (mkVec3 0 0 (-5)) down))
                             (Sphere.center redSphere))
                   (subtract (origin (mkRay (mkVec3 0 0 (-5)) down))
                             (Sphere.center redSphere))
               < Sphere.radius redSphere * Sphere.radius redSphere)
    by (unfold dot, subtract, redSphere; simpl; lra).
  split; [ split; [ exact H1 | exact H2 ] | ].
  apply X8_sphere_unseen_from_inside; [ exact H1 | exact H2 ].
Defined.

(** X9: a unit ray aimed at the centre of a sphere from the distance [d]
    meets it at [d - |radius|]. *)
Theorem X9_intersectRaySphere_towards_centre (id : nat)
    (center dir : Vec3) (radius d : R) (material : Material.t) :
  length dir = 1 ->
  intersectRaySphere (mkRay (subtract center (scale dir d)) dir)
    (Sphere.mk id center radius material)
  = d - Rabs radius.
Proof.
  intros Hdir. apply length_unit in Hdir.
  unfold intersectRaySphere. cbv zeta. cbn [origin direction Sphere.center
    Sphere.radius].
  rewrite Hdir.
  assert (E1 : dot (subtract (subtract center (scale dir d)) center) dir
               = - d).
  { transitivity (- d * dot dir dir);
      [ unfold dot, subtract, scale; simpl; ring | rewrite Hdir; ring ]. }
  assert (E2 : dot (subtract (subtract center (scale dir d)) center)
                   (subtract (subtract center (scale dir d)) center)
               = d * d).
  { transitivity (d * d * dot dir dir);
      [ unfold dot, subtract, scale; simpl; ring | rewrite Hdir; ring ]. }
  rewrite E1, E2.
  replace (2 * - d * (2 * - d) - 4 * 1 * (d * d - radius * radius))
    with ((2 * Rabs radius) * (2 * Rabs radius)).
  2:{ replace (Rabs radius * Rabs radius) with (radius * radius) at 1.
      - pose proof (Rabs_pos radius).
        replace (2 * Rabs radius * (2 * Rabs radius))
          with (4 * (Rabs radius * Rabs radius)) by ring.
        replace (Rabs radius * Rabs radius) with (radius * radius);
          [ ring | ].
        unfold Rabs; destruct (Rcase_abs radius); ring.
      - unfold Rabs; destruct (Rcase_abs radius); ring. }
  pose proof (Rabs_pos radius) as Hr.
  rewrite (proj2 (Rltb_false _ 0)) by nra.
  rewrite sqrt_square by lra. field.
Qed.

Lemma X9_intersectRaySphere_towards_centre_witness :
  length down = 1
  /\ intersectRaySphere (mkRay (subtract (mkVec3 0 0 (-5)) (scale down 5))
                           down)
       (Sphere.mk 0 (mkVec3 0 0 (-5)) 1 redMaterial)
     = 5 - Rabs 1.
Proof.
  split; [ exact length_down | ].
  apply X9_intersectRaySphere_towards_centre. exact length_down.
Defined.

(** X10: [intersectRayPlane] returns [-1] or a positive distance, and a
    positive distance is that of a point of the plane; a ray parallel to
    the plane gets [-1]. *)
Theorem X10_intersectRayPlane_on_plane (ray : Ray) (p : Plane.t) :
  let t := intersectRayPlane ray p in
  (t = -1 \/ (0 < t /\ on_plane p (pointAt ray t)))
  /\ (dot (direction ray) (Plane.normal p) = 0 -> t = -1).
Proof.
  cbv zeta. unfold intersectRayPlane. cbv zeta.
  set (denom := dot (direction ray) (Plane.normal p)).
  split.
  - destruct (Rabs denom <? 0.0001) eqn:Hd; [ left; reflexivity | ].
    apply Rltb_false in Hd.
    assert (Hne : denom <> 0).
    { intros E. rewrite E, Rabs_R0 in Hd. lra. }
    destruct (0 <? _) eqn:Ht; [ | left; reflexivity ].
    apply Rltb_true in Ht. right. split; [ exact Ht | ].
    unfold on_plane, pointAt.
    set (v := dot (subtract (Plane.point p) (origin ray)) (Plane.normal p))
      in *.
    replace (dot (subtract (add (origin ray)
                              (scale (direction ray) (v / denom)))
                    (Plane.point p)) (Plane.normal p))
      with (- v + v / denom * denom).
    + field. exact Hne.
    + unfold v, denom, dot, subtract, add, scale. simpl. ring.
  - intros E. fold denom in E. rewrite E, Rabs_R0.
    rewrite (proj2 (Rltb_true 0 0.0001)) by lra. reflexivity.
Qed.

Lemma sphere_getNormal_unit (s : Sphere.t) (p : Vec3) :
  0 < dot (subtract p (Sphere.center s)) (subtract p (Sphere.center s)) ->
  exists n,
    Sphere.getNormal s (Some p) = Ok n
    /\ length n = 1
    /\ 0 < dot n (subtract p (Sphere.center s)).
Proof.
  intros H. unfold Sphere.getNormal.
  set (v := subtract p (Sphere.center s)) in *.
  eexists. split; [ reflexivity | ].
  split; [ apply normalize_unit; exact H | ].
  rewrite normalize_scale by exact H. rewrite length_sqrt_dot.
  assert (Hs : 0 < sqrt (dot v v)) by (apply sqrt_lt_R0; exact H).
  set (q := sqrt (dot v v)) in *.
  replace (dot (scale v (1 / q)) v) with (dot v v / q)
    by (unfold dot, scale; simpl; field; lra).
  apply Rdiv_lt_0_compat; assumption.
Qed.

(** X11: at every point other than the centre, [Sphere.getNormal] returns
    a unit vector that points away from the centre. *)
Theorem X11_sphere_getNormal_unit_outward (s : Sphere.t) (p : Vec3) :
  0 < dot (subtract p (Sphere.center s)) (subtract p (Sphere.center s)) ->
  exists n,
    Sphere.getNormal s (Some p) = Ok n
    /\ length n = 1
    /\ 0 < dot n (subtract p (Sphere.center s)).
Proof. exact (sphere_getNormal_unit s p). Qed.

Lemma X11_sphere_getNormal_unit_outward_witness :
  0 < dot (subtract (mkVec3 0 0 (-4)) (Sphere.center redSphere))
          (subtract (mkVec3 0 0 (-4)) (Sphere.center redSphere))
  /\ exists n,
       Sphere.getNormal redSphere (Some (mkVec3 0 0 (-4))) = Ok n
       /\ length n = 1
       /\ 0 < dot n (subtract (mkVec3 0 0 (-4)) (Sphere.center redSphere)).
Proof.
  assert (H : 0 < dot (subtract (mkVec3 0 0 (-4)) (Sphere.center redSphere))
                      (subtract (mkVec3 0 0 (-4))
                         (Sphere.center redSphere)))
    by (unfold dot, subtract, redSphere; simpl; lra).
  split; [ exact H | ].
  apply X11_sphere_getNormal_unit_outward. exact H.
Defined.

(** X12: a plane constructed from a point and a normal other than the zero
    vector stores a unit normal, which [getNormal] returns, and passes
    through the given point. *)
Theorem X12_plane_constructor_unit_normal (id : nat) (point normal : Vec3)
    (material : Material.t) :
  0 < dot normal normal ->
  exists p,
    Plane.constructor id (Some point) (Some normal) material = Ok p
    /\ length (Plane.getNormal p) = 1
    /\ Plane.getNormal p = scale normal (1 / length normal)
    /\ on_plane p point.
Proof.
  intros H. eexists. split; [ reflexivity | ].
  unfold Plane.getNormal, on_plane. simpl.
  split; [ apply normalize_unit; exact H | ].
  split; [ apply normalize_scale; exact H | ].
  unfold dot, subtract. simpl. ring.
Qed.

Lemma X12_plane_constructor_unit_normal_witness :
  0 < dot lampPosition lampPosition
  /\ exists p,
       Plane.constructor 3 (Some shadedPoint) (Some lampPosition)
         floorMaterial = Ok p
       /\ length (Plane.getNormal p) = 1
       /\ Plane.getNormal p = scale lampPosition (1 / length lampPosition)
       /\ on_plane p shadedPoint.
Proof.
  assert (H : 0 < dot lampPosition lampPosition)
    by (unfold dot, lampPosition; simpl; lra).
  split; [ exact H | ].
  apply X12_plane_constructor_unit_normal. exact H.
Defined.

Lemma number_or_nonzero (x : option R) (d : R) :
  d <> 0 -> number_or x d <> 0.
Proof.
  intros Hd. unfold number_or. destruct x as [v | ]; [ | exact Hd ].
  destruct (v =? 0) eqn:E; [ exact Hd | ].
  apply Reqb_false in E. exact E.
Qed.

(** X13: a material that [Material.constructor] builds never has the
    shininess or the index of refraction 0: a missing or zero value is
    replaced by the default (32 and 1).  Built without options it has
    reflectivity 0, transparency 0, index 1 and is not refractive. *)
Theorem X13_material_constructor_defaults
    (ambient diffuse specular : option Color.t) (shininess : option R)
    (options : Material.options) (m : Material.t) :
  Material.constructor ambient diffuse specular shininess options = Ok m ->
  Material.shininess m <> 0
  /\ Material.ior m <> 0
  /\ (shininess = None \/ shininess = Some 0 -> Material.shininess m = 32)
  /\ (options = Material.no_options ->
      Material.reflectivity m = 0 /\ Material.transparency m = 0
      /\ Material.ior m = 1 /\ Material.isRefractive m = false).
Proof.
  unfold Material.constructor.
  destruct ambient, diffuse, specular; try discriminate.
  intros H. inversion H; subst; clear H. simpl.
  split; [ apply number_or_nonzero; lra | ].
  split; [ apply number_or_nonzero; lra | ].
  split.
  - intros [-> | ->]; simpl; [ reflexivity | ].
    rewrite (proj2 (Reqb_true 0 0)) by reflexivity. reflexivity.
  - intros ->. simpl. auto.
Qed.

Lemma X13_material_constructor_defaults_witness :
  Material.constructor (Some (Color.rgb 0.1 0 0)) (Some (Color.rgb 0.7 0 0))
    (Some (Color.rgb 0.3 0.3 0.3)) (Some 0) Material.no_options
  = Ok (Material.mk (Color.rgb 0.1 0 0) (Color.rgb 0.7 0 0)
          (Color.rgb 0.3 0.3 0.3) 32 0 0 1 false)
  /\ Material.shininess
       (Material.mk (Color.rgb 0.1 0 0) (Color.rgb 0.7 0 0)
          (Color.rgb 0.3 0.3 0.3) 32 0 0 1 false) <> 0.
Proof.
  assert (E : Material.constructor (Some (Color.rgb 0.1 0 0))
                (Some (Color.rgb 0.7 0 0)) (Some (Color.rgb 0.3 0.3 0.3))
                (Some 0) Material.no_options
              = Ok (Material.mk (Color.rgb 0.1 0 0) (Color.rgb 0.7 0 0)
                      (Color.rgb 0.3 0.3 0.3) 32 0 0 1 false)).
  { unfold Material.constructor, number_or. simpl.
    rewrite (proj2 (Reqb_true 0 0)) by reflexivity. reflexivity. }
  split; [ exact E | ].
  apply (X13_material_constructor_defaults _ _ _ _ _ _ E).
Defined.

(** ** The resolver, further *)

Lemma resolved_distance (ray : Ray) (objects objects' : list Primitive)
    (best best' : Intersection.value) :
  (forall o, In o objects <-> In o objects') ->
  resolved ray objects best -> resolved ray objects' best' ->
  Intersection.t best = Intersection.t best'.
Proof.
  intros Hsame [[-> Hnone] | (o & Ho & -> & Hpos & Hmin)]
    [[-> Hnone'] | (o' & Ho' & -> & Hpos' & Hmin')]; simpl.
  - reflexivity.
  - apply Hsame in Ho'. specialize (Hnone o' Ho'). lra.
  - apply Hsame in Ho. specialize (Hnone' o Ho). lra.
  - f_equal. apply Rle_antisym.
    + apply Hmin; [ apply Hsame; exact Ho' | exact Hpos' ].
    + apply Hmin'; [ apply Hsame; exact Ho | exact Hpos ].
Qed.

(** X14: the distance that the resolver returns does not depend on the
    order of the objects: two lists that are permutations of each other
    give the same [t], and the same answer to "was anything hit". *)
Theorem X14_findClosestIntersection_order (ray : Ray)
    (objects objects' : list Primitive) :
  Permutation objects objects' ->
  Intersection.t (findClosestIntersection ray objects)
  = Intersection.t (findClosestIntersection ray objects')
  /\ (Intersection.object (findClosestIntersection ray objects) = None
      <-> Intersection.object (findClosestIntersection ray objects') = None).
Proof.
  intros Hperm.
  assert (Hsame : forall o, In o objects <-> In o objects').
  { intros o. split; apply Permutation_in;
      [ exact Hperm | apply Permutation_sym; exact Hperm ]. }
  pose proof (findClosestIntersection_resolved ray objects) as H.
  pose proof (findClosestIntersection_resolved ray objects') as H'.
  pose proof (resolved_distance ray objects objects' _ _ Hsame H H') as E.
  split; [ exact E | ].
  destruct H as [[F _] | (o & _ & F & _)];
    destruct H' as [[F' _] | (o' & _ & F' & _)];
    rewrite F, F' in *; unfold noIntersection in *; simpl in *.
  - tauto.
  - discriminate E.
  - discriminate E.
  - split; intros H0; discriminate H0.
Qed.

Lemma X14_findClosestIntersection_order_witness :
  Permutation [tintedPane; opaqueWall] [opaqueWall; tintedPane]
  /\ Intersection.t (findClosestIntersection lampRay [tintedPane; opaqueWall])
     = Intersection.t
         (findClosestIntersection lampRay [opaqueWall; tintedPane])
  /\ (Intersection.object
        (findClosestIntersection lampRay [tintedPane; opaqueWall]) = None
      <-> Intersection.object
            (findClosestIntersection lampRay [opaqueWall; tintedPane])
          = None).
Proof.
  assert (H : Permutation [tintedPane; opaqueWall] [opaqueWall; tintedPane])
    by apply perm_swap.
  split; [ exact H | ].
  apply X14_findClosestIntersection_order. exact H.
Defined.

(** ** The shadow test, further *)

Lemma isInShadow_scan (point lightPos : Vec3) (objects : list Primitive)
    (currentObject : option Primitive) :
  isInShadow point lightPos objects currentObject
  = shadowScan (shadowRayOf point lightPos)
      (length (subtract lightPos point)) currentObject objects.
Proof. reflexivity. Qed.

Lemma legacy_isInShadow_scan (point lightPos : Vec3)
    (objects : list Primitive) (currentObject : option Primitive) :
  Legacy.isInShadow point lightPos objects currentObject
  = Legacy.shadowScan (shadowRayOf point lightPos)
      (length (subtract lightPos point)) currentObject objects.
Proof. reflexivity. Qed.

(** The loop answers at the first object it does not pass over, with
    "shadow" exactly when that object's transparency is below 0.5. *)
Lemma shadowScan_first (shadowRay : Ray) (distanceToLight : R)
    (currentObject : option Primitive) (objects : list Primitive) :
  shadowScan shadowRay distanceToLight currentObject objects
  = match find (fun o => negb (passedOver shadowRay distanceToLight
                                 currentObject o)) objects with
    | Some o => Material.transparency (Object.material o) <? 0.5
    | None => false
    end.
Proof.
  induction objects as [ | object rest IH ]; [ reflexivity | ].
  cbn [shadowScan find]. unfold passedOver, inRange. cbv zeta.
  destruct (same_object object currentObject); [ exact IH | ].
  cbn [orb].
  destruct ((0.001 <? intersect shadowRay object)
            && (intersect shadowRay object <? distanceToLight));
    cbn [negb orb].
  - destruct (0.9 <=? Material.transparency (Object.material object))
      eqn:Hhigh; cbn [negb].
    + apply Rleb_true in Hhigh.
      rewrite (proj2 (Rltb_true 0 _)) by lra. exact IH.
    + destruct (0 <? Material.transparency (Object.material object))
        eqn:Hpos; [ reflexivity | ].
      apply Rltb_false in Hpos. symmetry. apply Rltb_true. lra.
  - destruct (0 <? Material.transparency (Object.material object));
      exact IH.
Qed.

(** X15: [isInShadow] is decided by the first object in list order that
    is not the current object, is hit at a distance in (0.001,
    distanceToLight) and has a transparency below 0.9: the point is in
    shadow exactly when that object's transparency is below 0.5, and not in
    shadow when there is no such object. *)
Theorem X15_isInShadow_first_occluder (point lightPos : Vec3)
    (objects : list Primitive) (currentObject : option Primitive) :
  isInShadow point lightPos objects currentObject
  = match find (fun o => negb (passedOver (shadowRayOf point lightPos)
                                 (length (subtract lightPos point))
                                 currentObject o)) objects with
    | Some o => Material.transparency (Object.material o) <? 0.5
    | None => false
    end.
Proof. rewrite isInShadow_scan. apply shadowScan_first. Qed.

Lemma legacy_shadowScan_exists (shadowRay : Ray) (distanceToLight : R)
    (currentObject : option Primitive) (objects : list Primitive) :
  Legacy.shadowScan shadowRay distanceToLight currentObject objects
  = existsb (fun o => negb (same_object o currentObject)
                      && inRange shadowRay distanceToLight o) objects.
Proof.
  induction objects as [ | object rest IH ]; [ reflexivity | ].
  cbn [Legacy.shadowScan existsb]. unfold inRange at 1. cbv zeta.
  destruct (same_object object currentObject); cbn [negb andb orb];
    [ exact IH | ].
  destruct ((0.001 <? intersect shadowRay object)
            && (intersect shadowRay object <? distanceToLight));
    cbn [orb]; [ reflexivity | exact IH ].
Qed.

Lemma shadowScan_opaque_exists (shadowRay : Ray) (distanceToLight : R)
    (currentObject : option Primitive) (objects : list Primitive) :
  Forall opaque objects ->
  shadowScan shadowRay distanceToLight currentObject objects
  = existsb (fun o => negb (same_object o currentObject)
                      && inRange shadowRay distanceToLight o) objects.
Proof.
  intros H. induction H as [ | object rest Hobject _ IH ];
    [ reflexivity | ].
  cbn [shadowScan existsb]. unfold inRange at 1. cbv zeta.
  unfold opaque in Hobject.
  rewrite (proj2 (Rltb_false 0 _)) by exact Hobject.
  destruct (same_object object currentObject); cbn [negb andb orb];
    [ exact IH | ].
  destruct ((0.001 <? intersect shadowRay object)
            && (intersect shadowRay object <? distanceToLight));
    cbn [orb]; [ reflexivity | exact IH ].
Qed.

Lemma existsb_permutation {A : Type} (f : A -> bool) (l l' : list A) :
  Permutation l l' -> existsb f l = existsb f l'.
Proof.
  intros H. induction H; simpl.
  - reflexivity.
  - rewrite IHPermutation. reflexivity.
  - destruct (f x), (f y); reflexivity.
  - congruence.
Qed.

(** X16: in a scene whose objects are all opaque (transparency at most
    0), the point is in shadow exactly when some object other than the
    current one is hit in range, and the answer does not depend on the
    order of the objects. *)
Theorem X16_isInShadow_opaque_scene (point lightPos : Vec3)
    (objects objects' : list Primitive) (currentObject : option Primitive) :
  Forall opaque objects ->
  Permutation objects objects' ->
  isInShadow point lightPos objects currentObject
  = existsb (fun o => negb (same_object o currentObject)
                      && inRange (shadowRayOf point lightPos)
                           (length (subtract lightPos point)) o) objects
  /\ isInShadow point lightPos objects' currentObject
     = isInShadow point lightPos objects currentObject.
Proof.
  intros Hopaque Hperm.
  assert (Hopaque' : Forall opaque objects').
  { rewrite Forall_forall in *. intros o Ho. apply Hopaque.
    apply Permutation_in with objects';
      [ apply Permutation_sym; exact Hperm | exact Ho ]. }
  rewrite !isInShadow_scan.
  rewrite !shadowScan_opaque_exists by assumption.
  split; [ reflexivity | ].
  symmetry. apply existsb_permutation. exact Hperm.
Qed.

Lemma opaque_opaqueWall : opaque opaqueWall.
Proof. unfold opaque. simpl. lra. Qed.

Lemma opaque_redSphere : opaque (ASphere redSphere).
Proof. unfold opaque. simpl. lra. Qed.

Lemma X16_isInShadow_opaque_scene_witness :
  (Forall opaque [opaqueWall; ASphere redSphere]
   /\ Permutation [opaqueWall; ASphere redSphere]
        [ASphere redSphere; opaqueWall])
  /\ isInShadow shadedPoint lampPosition [opaqueWall; ASphere redSphere]
       None
     = existsb (fun o => negb (same_object o None)
                         && inRange (shadowRayOf shadedPoint lampPosition)
                              (length (subtract lampPosition shadedPoint))
                              o)
         [opaqueWall; ASphere redSphere]
  /\ isInShadow shadedPoint lampPosition [ASphere redSphere; opaqueWall]
       None
     = isInShadow shadedPoint lampPosition [opaqueWall; ASphere redSphere]
         None.
Proof.
  assert (H : Forall opaque [opaqueWall; ASphere redSphere]).
  { apply Forall_cons; [ exact opaque_opaqueWall | ].
    apply Forall_cons; [ exact opaque_redSphere | apply Forall_nil ]. }
  assert (P : Permutation [opaqueWall; ASphere redSphere]
                [ASphere redSphere; opaqueWall])
    by apply perm_swap.
  split; [ split; [ exact H | exact P ] | ].
  apply X16_isInShadow_opaque_scene; [ exact H | exact P ].
Defined.

(** ** [lighting.js]: the shadow test *)

(** X17: the shadow test of [lighting.js] reports a shadow exactly when
    some object other than the current one is hit in range.  The test of
    [index.html] never reports a shadow that this one does not report (it
    only takes away shadows decided by transparent occluders), and the two
    agree on scenes whose objects are all opaque. *)
Theorem X17_isInShadow_and_lighting_js (point lightPos : Vec3)
    (objects : list Primitive) (currentObject : option Primitive) :
  Legacy.isInShadow point lightPos objects currentObject
  = existsb (fun o => negb (same_object o currentObject)
                      && inRange (shadowRayOf point lightPos)
                           (length (subtract lightPos point)) o) objects
  /\ (isInShadow point lightPos objects currentObject = true ->
      Legacy.isInShadow point lightPos objects currentObject = true)
  /\ (Forall opaque objects ->
      isInShadow point lightPos objects currentObject
      = Legacy.isInShadow point lightPos objects currentObject).
Proof.
  rewrite isInShadow_scan, legacy_isInShadow_scan.
  generalize (shadowRayOf point lightPos) as shadowRay.
  generalize (length (subtract lightPos point)) as distanceToLight.
  intros distanceToLight shadowRay.
  split; [ apply legacy_shadowScan_exists | split ].
  - induction objects as [ | object rest IH ]; [ discriminate | ].
    cbn [shadowScan Legacy.shadowScan]. cbv zeta.
    destruct (same_object object currentObject); [ exact IH | ].
    destruct ((0.001 <? intersect shadowRay object)
              && (intersect shadowRay object <? distanceToLight));
      [ reflexivity | ].
    destruct (0 <? Material.transparency (Object.material object));
      exact IH.
  - intros Hopaque. rewrite legacy_shadowScan_exists.
    apply shadowScan_opaque_exists. exact Hopaque.
Qed.

(** ** [lighting.js]: reflection and the specular term *)

Lemma legacy_reflect_eq (incident normal : Vec3) :
  Legacy.reflect incident normal = reflect (scale incident (-1)) normal.
Proof.
  unfold Legacy.reflect, reflect, dot, subtract, scale. simpl.
  f_equal; ring.
Qed.

(** X18: [reflect] of [lighting.js] is the opposite of [reflect] of
    [index.html]; as the latter is applied to the negated light direction,
    the two specular terms are the same for materials with the same
    specular colour and shininess. *)
Theorem X18_legacy_specular_agrees (material : Material.t)
    (legacy : Legacy.Material) (light : Light.t)
    (normal lightDir viewDir : Vec3) :
  Legacy.specular legacy = Material.specular material ->
  Legacy.shininess legacy = Material.shininess material ->
  Legacy.reflect lightDir normal = scale (reflect lightDir normal) (-1)
  /\ Legacy.calculateSpecular legacy light normal lightDir viewDir
     = calculateSpecular material light normal lightDir viewDir.
Proof.
  intros Hs Hn. split.
  - unfold Legacy.reflect, reflect, dot, subtract, scale. simpl.
    f_equal; ring.
  - unfold Legacy.calculateSpecular, calculateSpecular. cbv zeta.
    rewrite legacy_reflect_eq, Hs, Hn. reflexivity.
Qed.

Lemma X18_legacy_specular_agrees_witness :
  (Legacy.specular
     (Legacy.mkMaterial (Color.rgb 0.1 0 0) (Color.rgb 0.7 0 0)
        (Color.rgb 0.3 0.3 0.3) 32 0.4 0 1)
   = Material.specular redMaterial
   /\ Legacy.shininess
        (Legacy.mkMaterial (Color.rgb 0.1 0 0) (Color.rgb 0.7 0 0)
           (Color.rgb 0.3 0.3 0.3) 32 0.4 0 1)
      = Material.shininess redMaterial)
  /\ Legacy.calculateSpecular
       (Legacy.mkMaterial (Color.rgb 0.1 0 0) (Color.rgb 0.7 0 0)
          (Color.rgb 0.3 0.3 0.3) 32 0.4 0 1)
       lamp unit_z unit_z unit_z
     = calculateSpecular redMaterial lamp unit_z unit_z unit_z.
Proof.
  split; [ split; reflexivity | ].
  apply (X18_legacy_specular_agrees redMaterial
           (Legacy.mkMaterial (Color.rgb 0.1 0 0) (Color.rgb 0.7 0 0)
              (Color.rgb 0.3 0.3 0.3) 32 0.4 0 1)
           lamp unit_z unit_z unit_z); reflexivity.
Defined.

(** ** The shading engine, further *)

(** X19: with an empty list of lights, a call that is not cut off throws
    when it reads [lights[0].ambient], before any shading. *)
Theorem X19_empty_lights_throw (material : Material.t)
    (normal viewDir point : Vec3) (objects : list Primitive)
    (currentObject : option Primitive) (depth : nat) :
  (depth <= MAX_DEPTH)%nat ->
  calculatePhongLighting material [] normal viewDir point objects
    currentObject depth
  = mkRun [Call depth material]
      (Some (Throw (TypeError "Cannot read properties of undefined"))).
Proof.
  intros Hdepth. unfold calculatePhongLighting.
  rewrite calculatePhongLighting_fuel_S.
  unfold calculatePhongLighting_body. cbv zeta.
  apply Nat.ltb_ge in Hdepth. rewrite Hdepth. reflexivity.
Qed.

Lemma X19_empty_lights_throw_witness :
  (0 <= MAX_DEPTH)%nat
  /\ calculatePhongLighting redMaterial [] unit_z unit_z shadedPoint objects
       None 0
     = mkRun [Call 0 redMaterial]
         (Some (Throw (TypeError "Cannot read properties of undefined"))).
Proof.
  assert (H : (0 <= MAX_DEPTH)%nat) by (unfold MAX_DEPTH; lia).
  split; [ exact H | ].
  apply X19_empty_lights_throw. exact H.
Defined.

Lemma plain_branch (m : Material.t) :
  plain m ->
  Material.isRefractive m && (0 <? Material.transparency m) = false.
Proof.
  intros [H | H]; [ rewrite H; reflexivity | ].
  rewrite (proj2 (Rltb_false 0 _)) by exact H. apply andb_false_r.
Qed.

(** In a scene of plain materials the engine stays in its opaque branch:
    it logs calls only and throws nothing. *)
Lemma calculatePhongLighting_fuel_plain (fuel : nat) :
  forall (material : Material.t) (lights : list Light.t)
         (normal viewDir point : Vec3) (objects : list Primitive)
         (currentObject : option Primitive) (depth : nat),
    lights <> [] ->
    plain material ->
    Forall (fun o => plain (Object.material o)) objects ->
    sat (fun e => isCall e = true) (fun _ => True) (fun _ => False)
      (fuel <= MAX_DEPTH + 1 - depth)%nat
      (calculatePhongLighting_fuel fuel material lights normal viewDir
         point objects currentObject depth).
Proof.
  induction fuel as [ | fuel IH ];
    intros material lights normal viewDir point objects currentObject depth
      Hlights Hplain Hscene.
  { apply sat_exhausted. lia. }
  rewrite calculatePhongLighting_fuel_S.
  unfold calculatePhongLighting_body. cbv zeta.
  apply sat_bind with (Q := fun _ => True).
  { apply sat_tell. reflexivity. }
  intros _ _.
  destruct (MAX_DEPTH <? depth)%nat eqn:Hcut.
  { apply sat_ret. exact I. }
  apply Nat.ltb_ge in Hcut.
  apply sat_bind with (Q := fun _ => True).
  { apply sat_lift. destruct lights; [ contradiction | exact I ]. }
  intros light0 _.
  rewrite (plain_branch material Hplain).
  apply sat_bind with (Q := fun _ => True);
    [ | intros c _; apply sat_ret; exact I ].
  destruct ((0 <? Material.reflectivity material)
            && (depth <? MAX_DEPTH)%nat); [ | apply sat_ret; exact I ].
  eapply sat_bind.
  - apply secondaryRay_sat with (P := fun _ => True).
    intros o n v p Ho. cbv beta.
    apply sat_weaken_exhausted
      with (N := (fuel <= MAX_DEPTH + 1 - (depth + 1))%nat);
      [ unfold MAX_DEPTH in *; lia | ].
    apply IH; [ exact Hlights | | exact Hscene ].
    rewrite Forall_forall in Hscene. apply Hscene. exact Ho.
  - intros [c | ] _; apply sat_ret; exact I.
Qed.

(** X20: with at least one light, a material and a scene for which the
    refractive branch is never taken (each material has [isRefractive]
    false or a transparency of at most 0), the engine returns a colour: it
    throws nothing and never calls [refract]. *)
Theorem X20_plain_scene_returns_colour (material : Material.t)
    (lights : list Light.t) (normal viewDir point : Vec3)
    (objects : list Primitive) (currentObject : option Primitive)
    (depth : nat) :
  lights <> [] ->
  plain material ->
  Forall (fun o => plain (Object.material o)) objects ->
  (exists color,
      outcome (calculatePhongLighting material lights normal viewDir point
                 objects currentObject depth) = Some (Ok color))
  /\ Forall (fun e => isCall e = true)
       (log (calculatePhongLighting material lights normal viewDir point
               objects currentObject depth)).
Proof.
  intros Hlights Hplain Hscene. unfold calculatePhongLighting.
  destruct (calculatePhongLighting_fuel_plain (S (MAX_DEPTH + 1 - depth))
              material lights normal viewDir point objects currentObject
              depth Hlights Hplain Hscene) as [Hlog Hout].
  split; [ | exact Hlog ].
  destruct (outcome _) as [[color | e] | ].
  - eauto.
  - contradiction.
  - lia.
Qed.

Lemma plain_matte_scene :
  [lamp] <> [] /\ plain matteMaterial
  /\ Forall (fun o => plain (Object.material o))
       [opaqueWall; ASphere redSphere].
Proof.
  split; [ discriminate | ].
  split; [ left; reflexivity | ].
  repeat (apply Forall_cons || apply Forall_nil); left; reflexivity.
Qed.

Lemma X20_plain_scene_returns_colour_witness :
  ([lamp] <> [] /\ plain matteMaterial
   /\ Forall (fun o => plain (Object.material o))
        [opaqueWall; ASphere redSphere])
  /\ (exists color,
         outcome (calculatePhongLighting matteMaterial [lamp] unit_z unit_z
                    shadedPoint [opaqueWall; ASphere redSphere] None 0)
         = Some (Ok color))
  /\ Forall (fun e => isCall e = true)
       (log (calculatePhongLighting matteMaterial [lamp] unit_z unit_z
               shadedPoint [opaqueWall; ASphere redSphere] None 0)).
Proof.
  split; [ exact plain_matte_scene | ].
  apply X20_plain_scene_returns_colour; apply plain_matte_scene.
Defined.

(** ** The number of invocations *)










Lemma directLighting_shadowed (material : Material.t)
    (lights : list Light.t) (normal viewDir point : Vec3)
    (objects : list Primitive) (currentObject : option Primitive)
    (finalColor : Color.t) :
  Forall (fun l => isInShadow point (Light.position l) objects
                     currentObject = true) lights ->
  directLighting material lights normal viewDir point objects currentObject
    finalColor
  = finalColor.
Proof.
  intros H. unfold directLighting. revert finalColor.
  induction H as [ | light lights Hlight _ IH ]; intros finalColor;
    cbn [fold_left]; [ reflexivity | ].
  rewrite Hlight. apply IH.
Qed.

(** X23: a point that is in shadow from every light, on a plain material
    without reflectivity, gets the ambient term of the first light alone,
    clamped; the engine makes no further call. *)
Theorem X23_shadowed_point_is_ambient (material : Material.t)
    (light0 : Light.t) (rest : list Light.t) (normal viewDir point : Vec3)
    (objects : list Primitive) (currentObject : option Primitive)
    (depth : nat) :
  (depth <= MAX_DEPTH)%nat ->
  plain material ->
  Material.reflectivity material <= 0 ->
  Forall (fun l => isInShadow point (Light.position l) objects
                     currentObject = true) (light0 :: rest) ->
  calculatePhongLighting material (light0 :: rest) normal viewDir point
    objects currentObject depth
  = mkRun [Call depth material]
      (Some (Ok (clampColor (calculateAmbient material light0)))).
Proof.
  intros Hdepth Hplain Hrefl Hshadow. unfold calculatePhongLighting.
  rewrite calculatePhongLighting_fuel_S.
  unfold calculatePhongLighting_body. cbv zeta.
  apply Nat.ltb_ge in Hdepth. rewrite Hdepth.
  rewrite (plain_branch material Hplain).
  rewrite (proj2 (Rltb_false 0 (Material.reflectivity material)))
    by exact Hrefl.
  cbv [bind tell lift firstLight log outcome ret app andb].
  rewrite directLighting_shadowed by exact Hshadow.
  reflexivity.
Qed.

Lemma isInShadow_wall :
  isInShadow shadedPoint lampPosition [opaqueWall] None = true.
Proof.
  rewrite isInShadow_lamp. cbn [shadowScan same_object]. cbv zeta.
  rewrite intersect_opaqueWall.
  replace (Material.transparency (Object.material opaqueWall)) with 0
    by reflexivity.
  eval_cmp. reflexivity.
Qed.

Lemma X23_shadowed_point_is_ambient_witness :
  ((0 <= MAX_DEPTH)%nat /\ plain matteMaterial
   /\ Material.reflectivity matteMaterial <= 0
   /\ Forall (fun l => isInShadow shadedPoint (Light.position l)
                         [opaqueWall] None = true) [lamp])
  /\ calculatePhongLighting matteMaterial [lamp] unit_z unit_z shadedPoint
       [opaqueWall] None 0
     = mkRun [Call 0 matteMaterial]
         (Some (Ok (clampColor (calculateAmbient matteMaterial lamp)))).
Proof.
  assert (H1 : (0 <= MAX_DEPTH)%nat) by (unfold MAX_DEPTH; lia).
  assert (H2 : plain matteMaterial) by (left; reflexivity).
  assert (H3 : Material.reflectivity matteMaterial <= 0) by (simpl; lra).
  assert (H4 : Forall (fun l => isInShadow shadedPoint (Light.position l)
                                  [opaqueWall] None = true) [lamp])
    by (apply Forall_cons; [ exact isInShadow_wall | apply Forall_nil ]).
  split.
  { split; [ exact H1 | ]. split; [ exact H2 | ].
    split; [ exact H3 | exact H4 ]. }
  apply X23_shadowed_point_is_ambient; assumption.
Defined.

(** ** The pixel loop *)

(** X24: for a pixel inside the image, the four indices written lie
    inside the image data of [width * height * 4] entries, and the indices
    of two different pixels never coincide. *)
Theorem X24_pixelIndex_in_bounds_injective (width height x y x' y' i j : nat) :
  (x < width)%nat -> (y < height)%nat ->
  (x' < width)%nat -> (y' < height)%nat ->
  (i < 4)%nat -> (j < 4)%nat ->
  (pixelIndex width x y + i < width * height * 4)%nat
  /\ ((pixelIndex width x y + i = pixelIndex width x' y' + j)%nat ->
      x = x' /\ y = y' /\ i = j).
Proof.
  intros Hx Hy Hx' Hy' Hi Hj. unfold pixelIndex. split.
  - assert (y * width + x < width * height)%nat by nia. lia.
  - intros E.
    assert (E' : (y * width + x = y' * width + x')%nat /\ i = j) by lia.
    destruct E' as [E' Eij].
    assert (Ey : y = y').
    { destruct (Nat.lt_trichotomy y y') as [L | [L | L]];
        [ exfalso | exact L | exfalso ]; nia. }
    subst y'. split; [ lia | split; [ reflexivity | exact Eij ] ].
Qed.

Lemma X24_pixelIndex_in_bounds_injective_witness :
  ((599 < 600)%nat /\ (3 < 4)%nat)
  /\ (pixelIndex 600 599 599 + 3 < 600 * 600 * 4)%nat.
Proof.
  assert (H : (599 < 600)%nat) by lia.
  assert (H' : (3 < 4)%nat) by lia.
  split; [ split; [ exact H | exact H' ] | ].
  apply (X24_pixelIndex_in_bounds_injective 600 600 599 599 599 599 3 3);
    assumption.
Defined.

Lemma div_unit_interval (a b : R) : 0 <= a -> a < b -> 0 <= a / b < 1.
Proof.
  intros Ha Hb. assert (Hb0 : 0 < b) by lra.
  assert (Hi : 0 < / b) by (apply Rinv_0_lt_compat; exact Hb0).
  split.
  - unfold Rdiv. apply Rmult_le_pos; lra.
  - apply Rmult_lt_reg_r with b; [ exact Hb0 | ].
    replace (a / b * b) with a by (field; lra). lra.
Qed.

(** X25: for a pixel inside an image that is not empty, the device
    coordinates lie in [-1, 1), respectively (-1, 1], and the primary ray
    starts at the camera with a unit direction that points into the scene
    (negative z). *)
Theorem X25_primaryRay_unit (width height x y : nat) :
  (x < width)%nat -> (y < height)%nat ->
  -1 <= ndcX width x < 1
  /\ -1 < ndcY height y <= 1
  /\ origin (primaryRay width height x y) = cameraPos
  /\ length (direction (primaryRay width height x y)) = 1
  /\ vz (direction (primaryRay width height x y)) < 0.
Proof.
  intros Hx Hy.
  assert (Hw : 0 < INR width) by (apply lt_0_INR; lia).
  assert (Hh : 0 < INR height) by (apply lt_0_INR; lia).
  pose proof (pos_INR x) as Hx0. pose proof (pos_INR y) as Hy0.
  apply lt_INR in Hx. apply lt_INR in Hy.
  assert (Qx : 0 <= INR x / INR width < 1)
    by (apply div_unit_interval; assumption).
  assert (Qy : 0 <= INR y / INR height < 1)
    by (apply div_unit_interval; assumption).
  unfold ndcX, ndcY.
  replace (2 * INR x / INR width) with (2 * (INR x / INR width))
    by (field; lra).
  replace (2 * INR y / INR height) with (2 * (INR y / INR height))
    by (field; lra).
  split; [ lra | ]. split; [ lra | ]. split; [ reflexivity | ].
  unfold primaryRay. cbv zeta. cbn [direction].
  set (d := mkVec3 (ndcX width x) (ndcY height y) (-1)).
  assert (Hd : 0 < dot d d) by (unfold dot, d; simpl; nra).
  split; [ apply normalize_unit; exact Hd | ].
  rewrite normalize_scale by exact Hd. rewrite length_sqrt_dot.
  assert (Hs : 0 < sqrt (dot d d)) by (apply sqrt_lt_R0; exact Hd).
  unfold scale. cbn [vz d].
  assert (0 < 1 / sqrt (dot d d)) by (apply Rdiv_lt_0_compat; lra).
  nra.
Qed.

(** ** Where [refract] cannot throw *)











(** ** A pixel, end to end *)







Lemma X25_primaryRay_unit_witness :
  ((300 < 600)%nat /\ (0 < 600)%nat)
  /\ -1 <= ndcX 600 300 < 1
  /\ -1 < ndcY 600 0 <= 1
  /\ origin (primaryRay 600 600 300 0) = cameraPos
  /\ length (direction (primaryRay 600 600 300 0)) = 1
  /\ vz (direction (primaryRay 600 600 300 0)) < 0.
Proof.
  assert (H : (300 < 600)%nat) by lia.
  assert (H' : (0 < 600)%nat) by lia.
  split; [ split; [ exact H | exact H' ] | ].
  apply X25_primaryRay_unit; assumption.
Defined.

(** ** The Phong terms *)

Lemma Math_pow_le_1 (x y : R) : 0 <= x <= 1 -> 0 < y -> Math_pow x y <= 1.
Proof.
  intros [Hx0 Hx1] Hy. unfold Math_pow.
  destruct (Req_dec_T y (IZR (Int_part y))) as [E | _].
  - destruct (Int_part y) as [ | p | p ].
    + simpl in E. lra.
    + simpl. rewrite <- (pow1 (Pos.to_nat p)). apply pow_incr. lra.
    + exfalso. assert (IZR (Z.neg p) < 0) by (apply IZR_lt; lia). lra.
  - destruct (Rlt_dec 0 x) as [Hpos | _]; [ | lra ].
    unfold Rpower. rewrite <- exp_0.
    destruct (Req_dec_T x 1) as [-> | Hne].
    + rewrite ln_1, Rmult_0_r. lra.
    + left. apply exp_increasing.
      assert (ln x < 0) by (rewrite <- ln_1; apply ln_increasing; lra).
      nra.
Qed.

Lemma length_scale_opposite (v : Vec3) : length (scale v (-1)) = length v.
Proof. unfold length, scale. simpl. f_equal. ring. Qed.

(** X29: for unit [normal], [lightDir] and [viewDir], colours without
    negative components and a positive shininess, each channel of the
    diffuse term lies between 0 and the product of the diffuse colours of
    material and light, each channel of the specular term between 0 and the
    product of the specular colours; the diffuse term vanishes when the
    light is behind the surface. *)
Theorem X29_phong_terms_bounded (material : Material.t) (light : Light.t)
    (normal lightDir viewDir : Vec3) :
  nonneg_material material -> nonneg_light light ->
  0 < Material.shininess material ->
  length normal = 1 -> length lightDir = 1 -> length viewDir = 1 ->
  let diffuse := calculateDiffuse material light normal lightDir in
  let specular :=
    calculateSpecular material light normal lightDir viewDir in
  (0 <= Color.r diffuse
        <= Color.r (Material.diffuse material) * Color.r (Light.diffuse light)
   /\ 0 <= Color.g diffuse
        <= Color.g (Material.diffuse material)
           * Color.g (Light.diffuse light)
   /\ 0 <= Color.b diffuse
        <= Color.b (Material.diffuse material)
           * Color.b (Light.diffuse light))
  /\ (0 <= Color.r specular
         <= Color.r (Material.specular material)
            * Color.r (Light.specular light)
      /\ 0 <= Color.g specular
           <= Color.g (Material.specular material)
              * Color.g (Light.specular light)
      /\ 0 <= Color.b specular
           <= Color.b (Material.specular material)
              * Color.b (Light.specular light))
  /\ (dot normal lightDir <= 0 -> diffuse = Color.rgb 0 0 0).
Proof.
  intros (_ & (Dr & Dg & Db) & (Sr & Sg & Sb))
         (_ & (LDr & LDg & LDb) & (LSr & LSg & LSb))
         Hshiny Hn Hl Hv.
  cbv zeta. unfold calculateDiffuse, calculateSpecular. cbv zeta.
  cbn [Color.r Color.g Color.b].
  pose proof (dot_unit_bound normal lightDir Hn Hl) as Hd.
  apply Rabs_le_bounds in Hd.
  set (d := Rmax (dot normal lightDir) 0).
  assert (Hd01 : 0 <= d <= 1).
  { unfold d. split; [ apply Rmax_r | apply Rmax_lub; lra ]. }
  set (reflectDir := reflect (scale lightDir (-1)) normal).
  assert (Hr : length reflectDir = 1).
  { unfold reflectDir.
    destruct (reflect_unit_normal (scale lightDir (-1)) normal Hn)
      as [E _].
    rewrite E, length_scale_opposite. exact Hl. }
  pose proof (dot_unit_bound viewDir reflectDir Hv Hr) as Hs.
  apply Rabs_le_bounds in Hs.
  set (base := Rmax (dot viewDir reflectDir) 0).
  assert (Hbase : 0 <= base <= 1).
  { unfold base. split; [ apply Rmax_r | apply Rmax_lub; lra ]. }
  pose proof (Math_pow_nonneg base (Material.shininess material)
                (proj1 Hbase)) as Hp0.
  pose proof (Math_pow_le_1 base (Material.shininess material) Hbase Hshiny)
    as Hp1.
  set (spec := Math_pow base (Material.shininess material)) in *.
  assert (Hprod : forall a b w, 0 <= a -> 0 <= b -> 0 <= w <= 1 ->
                                0 <= a * b * w <= a * b).
  { intros a b w Ha Hb Hw.
    assert (0 <= a * b) by (apply Rmult_le_pos; assumption). nra. }
  split; [ | split ].
  - repeat split; apply Hprod; assumption.
  - repeat split; apply Hprod; try assumption; split; assumption.
  - intros Hbehind. unfold d. rewrite Rmax_right by exact Hbehind.
    f_equal; ring.
Qed.

Lemma X29_phong_terms_bounded_witness :
  (nonneg_material redMaterial /\ nonneg_light lamp
   /\ 0 < Material.shininess redMaterial
   /\ length unit_z = 1)
  /\ 0 <= Color.r (calculateDiffuse redMaterial lamp unit_z unit_z)
       <= Color.r (Material.diffuse redMaterial)
          * Color.r (Light.diffuse lamp).
Proof.
  assert (H1 : nonneg_material redMaterial)
    by (unfold nonneg_material, nonneg; simpl; lra).
  assert (H2 : nonneg_light lamp)
    by (unfold nonneg_light, nonneg; simpl; lra).
  assert (H3 : 0 < Material.shininess redMaterial) by (simpl; lra).
  split.
  { split; [ exact H1 | ]. split; [ exact H2 | ].
    split; [ exact H3 | exact length_unit_z ]. }
  apply (X29_phong_terms_bounded redMaterial lamp unit_z unit_z unit_z H1 H2
           H3 length_unit_z length_unit_z length_unit_z).
Defined.
